(** * Dataflow diagnostics on SIL (lib/SILPasses/DataflowDiagnostics.cpp)

    A shallow embedding of the [EmitDFDiagnostics] function transform and of
    its three diagnosers, [diagnoseUnreachable], [diagnoseReturn] and
    [diagnoseStaticReports], followed by the properties of the pass.

    The pass only reads the SIL of one function and appends diagnostics to
    the diagnostic engine of the AST context.  It can also stop on an
    internal failure ([llvm_unreachable], a failed [assert], an operand index
    out of range).  Both effects are explicit here: a state monad over the
    object a C++ function receives by non-const reference, whose result is
    either [Ok] or [Fatal]. *)

From Stdlib Require Import List String ZArith Bool Lia.
Import ListNotations.

Set Implicit Arguments.

(** ** Results and the state-and-failure monad *)

Inductive Outcome (A : Type) : Type :=
| Ok (a : A)
| Fatal (msg : string).

Arguments Ok {A} a.
Arguments Fatal {A} msg.

(** A computation over a mutable object of type [S].  The state reached is
    kept on failure too: what was emitted before the failure stays emitted. *)
Definition St (S A : Type) : Type := S -> Outcome A * S.

Definition ret {S A : Type} (a : A) : St S A := fun s => (Ok a, s).

Definition abort {S A : Type} (msg : string) : St S A := fun s => (Fatal msg, s).

Definition bind {S A B : Type} (m : St S A) (k : A -> St S B) : St S B :=
  fun s =>
    match m s with
    | (Ok a, s') => k a s'
    | (Fatal msg, s') => (Fatal msg, s')
    end.

Declare Scope st_scope.
Delimit Scope st_scope with st.
Notation "x <- m ;; k" := (bind m (fun x => k))
  (at level 61, m at next level, right associativity) : st_scope.
Notation "m ;; k" := (bind m (fun _ => k))
  (at level 61, right associativity) : st_scope.
Open Scope st_scope.

(** [for (auto &x : l) body(x);] *)
Fixpoint for_each {S A : Type} (l : list A) (body : A -> St S unit) : St S unit :=
  match l with
  | [] => ret tt
  | x :: rest => body x ;; for_each rest body
  end.

(** ** Source positions, types and AST nodes *)

(** [SourceLoc]: a position in a source buffer, or the invalid position that
    the default constructor [SourceLoc()] builds. *)
Inductive SourceLoc : Type :=
| SourceLoc_invalid
| SourceLoc_at (offset : N).

(** Modelled from the spec: the AST types the pass reads ([swift/AST/Types.h]
    and [swift/AST/Decl.h], [Expr.h], [Stmt.h] are not among the sources).
    A result type is the unit/void type (the empty tuple) or some other
    type, given by its name. *)
Inductive SwiftType : Type :=
| EmptyTupleType
| NominalType (name : string).

Definition isVoid (T : SwiftType) : bool :=
  match T with
  | EmptyTupleType => true
  | NominalType _ => false
  end.

(** [AnyFunctionType]: the signature; only its no-return attribute is read. *)
Record AnyFunctionType : Type := mkAnyFunctionType {
  isNoReturn : bool
}.

Record FuncDecl : Type := mkFuncDecl {
  FD_getResultType : SwiftType;
  FD_getType : AnyFunctionType
}.

Record ClosureExpr : Type := mkClosureExpr {
  CE_getResultType : SwiftType;
  CE_getType : AnyFunctionType
}.

(** Modelled from the spec: the AST node a location refers to, with the
    discriminators of the data model.  The source asks for
    [AbstractFunctionDecl] in one place and for [FuncDecl] in another, so a
    function declaration that is not a [FuncDecl] (a constructor or a
    destructor) is kept apart. *)
Inductive ASTNode : Type :=
| Node_FuncDecl (FD : FuncDecl)
| Node_OtherAbstractFunctionDecl
| Node_ClosureExpr (CE : ClosureExpr)
| Node_SwitchStmt
| Node_ReturnStmt
| Node_Other.

(** ** Locations *)

(** Modelled from the spec: the kind of a location ([swift/SIL/SILLocation.h]
    is not among the sources).  [ReturnKind] is the explicit return
    statement, [ImplicitReturnKind] the implicit one. *)
Inductive LocationKind : Type :=
| RegularKind
| ReturnKind
| ImplicitReturnKind
| OtherKind.

Record ASTLocation : Type := mkASTLocation {
  Loc_Node : ASTNode;
  Loc_Kind : LocationKind;
  Loc_Start : SourceLoc;
  Loc_End : SourceLoc
}.

(** Modelled from the spec: a [SILLocation] is invalid ([None], no
    provenance) or valid, and then carries the AST node it comes from, its
    kind, a source position and an end source position. *)
Definition SILLocation : Type := option ASTLocation.

Definition hasASTLocation (L : SILLocation) : bool :=
  match L with
  | Some _ => true
  | None => false
  end.

(** [explicit operator bool]: the location is not null. *)
Definition Loc_bool (L : SILLocation) : bool := hasASTLocation L.

Definition isASTNode_AbstractFunctionDecl (L : SILLocation) : bool :=
  match L with
  | Some a =>
      match Loc_Node a with
      | Node_FuncDecl _ | Node_OtherAbstractFunctionDecl => true
      | _ => false
      end
  | None => false
  end.

Definition getAsASTNode_FuncDecl (L : SILLocation) : option FuncDecl :=
  match L with
  | Some a =>
      match Loc_Node a with
      | Node_FuncDecl FD => Some FD
      | _ => None
      end
  | None => None
  end.

Definition getAsASTNode_ClosureExpr (L : SILLocation) : option ClosureExpr :=
  match L with
  | Some a =>
      match Loc_Node a with
      | Node_ClosureExpr CE => Some CE
      | _ => None
      end
  | None => None
  end.

Definition isASTNode_ClosureExpr (L : SILLocation) : bool :=
  match getAsASTNode_ClosureExpr L with
  | Some _ => true
  | None => false
  end.

Definition isASTNode_SwitchStmt (L : SILLocation) : bool :=
  match L with
  | Some a =>
      match Loc_Node a with
      | Node_SwitchStmt => true
      | _ => false
      end
  | None => false
  end.

Definition is_ReturnLocation (L : SILLocation) : bool :=
  match L with
  | Some a =>
      match Loc_Kind a with
      | ReturnKind => true
      | _ => false
      end
  | None => false
  end.

Definition is_ImplicitReturnLocation (L : SILLocation) : bool :=
  match L with
  | Some a =>
      match Loc_Kind a with
      | ImplicitReturnKind => true
      | _ => false
      end
  | None => false
  end.

(** The position of an invalid location is the invalid position. *)
Definition getSourceLoc (L : SILLocation) : SourceLoc :=
  match L with
  | Some a => Loc_Start a
  | None => SourceLoc_invalid
  end.

Definition getEndSourceLoc (L : SILLocation) : SourceLoc :=
  match L with
  | Some a => Loc_End a
  | None => SourceLoc_invalid
  end.

(** ** SIL: values, instructions, blocks, functions *)

Inductive BuiltinValueKind : Type :=
| StaticReport
| OtherBuiltin (name : string).

Record BuiltinInfo : Type := mkBuiltinInfo {
  ID : BuiltinValueKind
}.

(** [APInt], by its width and its value read as an unsigned number; the
    comparison with a [uint64_t] compares that number. *)
Record APInt : Type := mkAPInt {
  BitWidth : N;
  ZExtValue : Z
}.

Definition APInt_ne (a : APInt) (v : Z) : bool := negb (ZExtValue a =? v)%Z.

(** An operand points to the definition of its value: a basic block argument
    or an instruction.  The pass follows such a pointer only to look at the
    definition, so an operand holds the definition itself.  Operands the
    pass never reads (of branches and returns) are left out. *)
Inductive ValueBase : Type :=
| SILArgument
| InstValue (I : SILInstruction)
with SILInstruction : Type :=
| UnreachableInst (Loc : SILLocation)
| BranchInst (Loc : SILLocation)
| ReturnInst (Loc : SILLocation)
| OtherTermInst (Loc : SILLocation)
| ApplyInst (Loc : SILLocation) (Callee : ValueBase) (Arguments : list ValueBase)
| IntegerLiteralInst (Loc : SILLocation) (Value : APInt)
| BuiltinFunctionRefInst (Loc : SILLocation) (Info : BuiltinInfo)
| OtherInst (Loc : SILLocation).

Definition getLoc (I : SILInstruction) : SILLocation :=
  match I with
  | UnreachableInst L | BranchInst L | ReturnInst L | OtherTermInst L
  | ApplyInst L _ _ | IntegerLiteralInst L _ | BuiltinFunctionRefInst L _
  | OtherInst L => L
  end.

Definition isa_UnreachableInst (I : SILInstruction) : bool :=
  match I with UnreachableInst _ => true | _ => false end.

Definition isa_BranchInst (I : SILInstruction) : bool :=
  match I with BranchInst _ => true | _ => false end.

Definition isa_ReturnInst (I : SILInstruction) : bool :=
  match I with ReturnInst _ => true | _ => false end.

Definition isa_TermInst (I : SILInstruction) : bool :=
  match I with
  | UnreachableInst _ | BranchInst _ | ReturnInst _ | OtherTermInst _ => true
  | _ => false
  end.

Definition isa_ApplyInst (I : SILInstruction) : bool :=
  match I with ApplyInst _ _ _ => true | _ => false end.

(** [dyn_cast<BuiltinFunctionRefInst>(V)], giving the builtin's info. *)
Definition dyn_cast_BuiltinFunctionRefInst (V : ValueBase) : option BuiltinInfo :=
  match V with
  | InstValue (BuiltinFunctionRefInst _ B) => Some B
  | _ => None
  end.

(** [dyn_cast<IntegerLiteralInst>(V)], giving the literal's value. *)
Definition dyn_cast_IntegerLiteralInst (V : ValueBase) : option APInt :=
  match V with
  | InstValue (IntegerLiteralInst _ v) => Some v
  | _ => None
  end.

Definition BuiltinValueKind_eqb (a b : BuiltinValueKind) : bool :=
  match a, b with
  | StaticReport, StaticReport => true
  | OtherBuiltin x, OtherBuiltin y => String.eqb x y
  | _, _ => false
  end.

Record SILBasicBlock : Type := mkSILBasicBlock {
  Insts : list SILInstruction
}.

Record SILFunction : Type := mkSILFunction {
  getLocation : SILLocation;
  Blocks : list SILBasicBlock
}.

(** ** Diagnostics *)

Module diag.

(** The diagnostics of this pass with their arguments. *)
Inductive Diag : Type :=
| missing_return (ResTy : SwiftType) (isClosure : Z)
| non_exhaustive_switch
| return_from_noreturn
| static_report_error.

End diag.

Record Diagnostic : Type := mkDiagnostic {
  Diag_Loc : SourceLoc;
  Diag_ID : diag.Diag
}.

(** The diagnostic engine, by the diagnostics it was given, oldest first. *)
Record ASTContext : Type := mkASTContext {
  Diags : list Diagnostic
}.

(** The module as one run of the pass sees it: the function being
    transformed and the AST context. *)
Record SILModule : Type := mkSILModule {
  getFunction : SILFunction;
  getASTContext : ASTContext
}.

(** A computation on [M.getASTContext()] run on the module [M]. *)
Definition onASTContext {A : Type} (m : St ASTContext A) : St SILModule A :=
  fun M =>
    let (r, C) := m (getASTContext M) in
    (r, mkSILModule (getFunction M) C).

(** ** The diagnosers *)

(** [diagnose(Context, loc, diag, args...)]: [Context.Diags.diagnose]. *)
Definition diagnose (loc : SourceLoc) (d : diag.Diag) : St ASTContext unit :=
  fun Context => (Ok tt, mkASTContext (Diags Context ++ [mkDiagnostic loc d])).

(** [assert(cond)] of a build with assertions. *)
Definition assert_ {S : Type} (cond : bool) (msg : string) : St S unit :=
  if cond then ret tt else abort msg.

(** [Ty->castTo<AnyFunctionType>()] on the type of a function declaration or
    of a closure expression, which is a function type: a pointer to it,
    never null. *)
Definition castTo_AnyFunctionType (Ty : AnyFunctionType) : option AnyFunctionType :=
  Some Ty.

(** [T && T->isNoReturn()] for a pointer [T] that may be null. *)
Definition nonnull_and_isNoReturn (T : option AnyFunctionType) : bool :=
  match T with
  | Some T' => isNoReturn T'
  | None => false
  end.

(** [diagnoseMissingReturn(UI, Context)].  [F] is [UI->getParent()->getParent()].
    A [Type] of the model is never null, so [assert(L && ResTy)] is about [L]. *)
Definition diagnoseMissingReturn (UI : SILInstruction) (F : SILFunction)
  : St ASTContext unit :=
  let FLoc := getLocation F in
  sig <- match getAsASTNode_FuncDecl FLoc with
         | Some FD => ret (FD_getResultType FD, castTo_AnyFunctionType (FD_getType FD))
         | None =>
             match getAsASTNode_ClosureExpr FLoc with
             | Some CE => ret (CE_getResultType CE, castTo_AnyFunctionType (CE_getType CE))
             | None => abort "unhandled case in MissingReturn"
             end
         end ;;
  let ResTy := fst sig in
  let T := snd sig in
  if isVoid ResTy || nonnull_and_isNoReturn T then ret tt
  else
    let L := getLoc UI in
    assert_ (Loc_bool L) "L && ResTy" ;;
    diagnose (getEndSourceLoc L)
             (diag.missing_return ResTy
                (if isASTNode_ClosureExpr FLoc then 1 else 0)%Z).

(** [diagnoseNonExhaustiveSwitch(UI, Context)]. *)
Definition diagnoseNonExhaustiveSwitch (UI : SILInstruction) : St ASTContext unit :=
  let L := getLoc UI in
  assert_ (Loc_bool L) "L" ;;
  diagnose (getEndSourceLoc L) diag.non_exhaustive_switch.

(** [diagnoseUnreachable(I, Context)]. *)
Definition diagnoseUnreachable (I : SILInstruction) (F : SILFunction)
  : St ASTContext unit :=
  if isa_UnreachableInst I then
    let L := getLoc I in
    if negb (hasASTLocation L) then ret tt
    else if isASTNode_AbstractFunctionDecl L || isASTNode_ClosureExpr L then
      diagnoseMissingReturn I F
    else if isASTNode_SwitchStmt L then
      diagnoseNonExhaustiveSwitch I
    else ret tt
  else ret tt.

(** [diagnoseReturn(I, Context)].  [F] is [TI->getParent()->getParent()]. *)
Definition diagnoseReturn (I : SILInstruction) (F : SILFunction)
  : St ASTContext unit :=
  if negb (isa_TermInst I) || negb (isa_BranchInst I || isa_ReturnInst I) then ret tt
  else
    let FLoc := getLocation F in
    match getAsASTNode_FuncDecl FLoc with
    | Some FD =>
        match castTo_AnyFunctionType (FD_getType FD) with
        | Some T =>
            if isNoReturn T then
              let L := getLoc I in
              (if is_ReturnLocation L
               then diagnose (getSourceLoc L) diag.return_from_noreturn
               else ret tt) ;;
              (if is_ImplicitReturnLocation L
               then diagnose (getSourceLoc L) diag.return_from_noreturn
               else ret tt)
            else ret tt
        | None => ret tt
        end
    | None => ret tt
    end.

(** [Args[i]] on an [OperandValueArrayRef]: the index is asserted in range. *)
Definition operand_at {S : Type} (Args : list ValueBase) (i : nat) : St S ValueBase :=
  match nth_error Args i with
  | Some V => ret V
  | None => abort "Invalid index!"
  end.

(** [!V || V->getValue() != 1] *)
Definition null_or_not_one (V : option APInt) : bool :=
  match V with
  | None => true
  | Some v => APInt_ne v 1
  end.

(** [diagnoseStaticReports(I, M)]. *)
Definition diagnoseStaticReports (I : SILInstruction) : St SILModule unit :=
  match I with
  | ApplyInst _ Callee Args =>
      match dyn_cast_BuiltinFunctionRefInst Callee with
      | Some B =>
          if BuiltinValueKind_eqb (ID B) StaticReport then
            Arg0 <- operand_at Args 0 ;;
            let V := dyn_cast_IntegerLiteralInst Arg0 in
            if null_or_not_one V then ret tt
            else
              onASTContext
                (diagnose (getSourceLoc (getLoc I)) diag.static_report_error)
          else ret tt
      | None => ret tt
      end
  | _ => ret tt
  end.

(** ** The pass *)

(** The body of the inner loop of [EmitDFDiagnostics::run] for the
    instruction [I] of the function [F]. *)
Definition visit (F : SILFunction) (I : SILInstruction) : St SILModule unit :=
  onASTContext (diagnoseUnreachable I F) ;;
  onASTContext (diagnoseReturn I F) ;;
  diagnoseStaticReports I.

(** [EmitDFDiagnostics::run()]. *)
Definition run : St SILModule unit :=
  fun M =>
    let F := getFunction M in
    for_each (Blocks F) (fun BB => for_each (Insts BB) (visit F)) M.

(** ** Appending to the diagnostic engine *)

(** [M] after the diagnostics [ds] were emitted, in this order. *)
Definition emitted (M : SILModule) (ds : list Diagnostic) : SILModule :=
  mkSILModule (getFunction M) (mkASTContext (Diags (getASTContext M) ++ ds)).

Definition emittedC (C : ASTContext) (ds : list Diagnostic) : ASTContext :=
  mkASTContext (Diags C ++ ds).

(** [m] ends with [r] and its only effect is to emit [ds], whatever the
    state it starts from. *)
Definition appends {S A : Type} (extend : S -> list Diagnostic -> S)
  (m : St S A) (r : Outcome A) (ds : list Diagnostic) : Prop :=
  forall s, m s = (r, extend s ds).

Definition uniform {S A : Type} (extend : S -> list Diagnostic -> S)
  (m : St S A) : Prop :=
  exists r ds, appends extend m r ds.

(** The function with no diagnostic emitted yet. *)
Definition fresh (F : SILFunction) : SILModule := mkSILModule F (mkASTContext []).

(** What visiting [I] emits, and whether the visit completes. *)
Definition diagnosticsOf (F : SILFunction) (I : SILInstruction) : list Diagnostic :=
  Diags (getASTContext (snd (visit F I (fresh F)))).

Definition completes (F : SILFunction) (I : SILInstruction) : Prop :=
  fst (visit F I (fresh F)) = Ok tt.

(** All instructions of the function, block after block. *)
Definition instructions (F : SILFunction) : list SILInstruction :=
  flat_map Insts (Blocks F).

(** ** The vocabulary of the properties *)

(** The declared signature of a function, read from its AST origin: the
    result type and whether the signature is marked no-return.  Only a
    function declaration ([FuncDecl]) and a closure expression have one. *)
Definition declaredSignature (F : SILFunction) : option (SwiftType * bool) :=
  match getAsASTNode_FuncDecl (getLocation F) with
  | Some FD => Some (FD_getResultType FD, isNoReturn (FD_getType FD))
  | None =>
      match getAsASTNode_ClosureExpr (getLocation F) with
      | Some CE => Some (CE_getResultType CE, isNoReturn (CE_getType CE))
      | None => None
      end
  end.

(** 0 for a function declaration, 1 for a closure expression: once for the
    construct the function comes from, once for the construct a location
    refers to. *)
Definition originFlag (F : SILFunction) : Z :=
  if isASTNode_ClosureExpr (getLocation F) then 1%Z else 0%Z.

Definition locationFlag (L : SILLocation) : Z :=
  if isASTNode_ClosureExpr L then 1%Z else 0%Z.

(** The missing-return diagnostics due for an unreachable at [L] in [F],
    with the given function-or-closure flag. *)
Definition missingReturnDiagnostics (flag : Z) (F : SILFunction) (L : SILLocation)
  : list Diagnostic :=
  match declaredSignature F with
  | Some (ResTy, diverging) =>
      if negb (isVoid ResTy) && negb diverging
      then [mkDiagnostic (getEndSourceLoc L) (diag.missing_return ResTy flag)]
      else []
  | None => []
  end.

(** The missing-return rule with the flag taken from the construct that the
    location of the unreachable refers to. *)
Definition missing_return_flag_of_location : Prop :=
  forall (F : SILFunction) (L : SILLocation) (M : SILModule),
    hasASTLocation L = true ->
    isASTNode_AbstractFunctionDecl L || isASTNode_ClosureExpr L = true ->
    declaredSignature F <> None ->
    visit F (UnreachableInst L) M
    = (Ok tt, emitted M (missingReturnDiagnostics (locationFlag L) F L)).

(** The origin of the function is a [FuncDecl] marked no-return. *)
Definition isNoReturnFuncDecl (F : SILFunction) : bool :=
  match getAsASTNode_FuncDecl (getLocation F) with
  | Some FD => isNoReturn (FD_getType FD)
  | None => false
  end.

(** The location is that of an explicit or of an implicit return. *)
Definition isReturnLocation (L : SILLocation) : bool :=
  is_ReturnLocation L || is_ImplicitReturnLocation L.

(** The callee is a reference to the static-report builtin. *)
Definition isStaticReportRef (Callee : ValueBase) : bool :=
  match Callee with
  | InstValue (BuiltinFunctionRefInst _ B) => BuiltinValueKind_eqb (ID B) StaticReport
  | _ => false
  end.

(** The first argument is an integer literal of value 1. *)
Definition firstArgumentIsOne (Args : list ValueBase) : bool :=
  match Args with
  | InstValue (IntegerLiteralInst _ v) :: _ => (ZExtValue v =? 1)%Z
  | _ => false
  end.

Definition isEmpty (Args : list ValueBase) : bool :=
  match Args with
  | [] => true
  | _ :: _ => false
  end.

(** ** Small functions to test on *)

Definition loc_of (n : ASTNode) (k : LocationKind) (s e : N) : SILLocation :=
  Some (mkASTLocation n k (SourceLoc_at s) (SourceLoc_at e)).

Definition Int_decl (noret : bool) : FuncDecl :=
  mkFuncDecl (NominalType "Int") (mkAnyFunctionType noret).

Definition Int_closure : ClosureExpr :=
  mkClosureExpr (NominalType "Int") (mkAnyFunctionType false).

Definition static_report_ref : ValueBase :=
  InstValue (BuiltinFunctionRefInst None (mkBuiltinInfo StaticReport)).

Definition literal (v : Z) : ValueBase :=
  InstValue (IntegerLiteralInst None (mkAPInt 1 v)).

(** func f() -> Int { switch ... }, falling off its end, with reports. *)
Definition f_missing_return : SILFunction :=
  let FLoc := loc_of (Node_FuncDecl (Int_decl false)) RegularKind 10 90 in
  mkSILFunction FLoc
    [ mkSILBasicBlock
        [ ApplyInst (loc_of Node_Other RegularKind 20 25) static_report_ref
            [literal 1; SILArgument];
          UnreachableInst (loc_of Node_SwitchStmt RegularKind 30 60) ];
      mkSILBasicBlock
        [ ApplyInst (loc_of Node_Other RegularKind 62 66) static_report_ref
            [literal 0];
          UnreachableInst None ];
      mkSILBasicBlock [ UnreachableInst FLoc ] ].

(** @noreturn func g() -> Int { return 1 } *)
Definition g_noreturn : SILFunction :=
  mkSILFunction (loc_of (Node_FuncDecl (Int_decl true)) RegularKind 0 40)
    [ mkSILBasicBlock
        [ IntegerLiteralInst (loc_of Node_Other RegularKind 20 21) (mkAPInt 64 1);
          ReturnInst (loc_of Node_ReturnStmt ReturnKind 13 21) ] ].

(** A function whose origin is a constructor: the missing-return diagnoser
    does not handle it. *)
Definition h_constructor : SILFunction :=
  let FLoc := loc_of Node_OtherAbstractFunctionDecl RegularKind 0 40 in
  mkSILFunction FLoc [ mkSILBasicBlock [ UnreachableInst FLoc ] ].

(** func k() -> Int, one block, ending in an unreachable whose location is a
    closure expression and not the function itself. *)
Definition k_closure_location : SILLocation :=
  loc_of (Node_ClosureExpr Int_closure) RegularKind 12 30.

Definition k_function : SILFunction :=
  mkSILFunction (loc_of (Node_FuncDecl (Int_decl false)) RegularKind 0 40)
    [ mkSILBasicBlock [ UnreachableInst k_closure_location ] ].

(** ** More vocabulary for the pass *)

(** The message with which the visit of [I] in [F] stops, if it stops: the
    unhandled origin of the function for an unreachable at a function or
    closure location, the missing first argument of a static report. *)
Definition failureOf (F : SILFunction) (I : SILInstruction) : option string :=
  match I with
  | UnreachableInst L =>
      if hasASTLocation L
         && (isASTNode_AbstractFunctionDecl L || isASTNode_ClosureExpr L)
      then match declaredSignature F with
           | Some _ => None
           | None => Some "unhandled case in MissingReturn"%string
           end
      else None
  | ApplyInst _ Callee Args =>
      if isStaticReportRef Callee && isEmpty Args
      then Some "Invalid index!"%string else None
  | _ => None
  end.

Definition outcomeOf (F : SILFunction) (I : SILInstruction) : Outcome unit :=
  match failureOf F I with
  | Some msg => Fatal msg
  | None => Ok tt
  end.

Definition isMissingReturn (d : Diagnostic) : bool :=
  match Diag_ID d with
  | diag.missing_return _ _ => true
  | _ => false
  end.

Definition isReturnFromNoReturn (d : Diagnostic) : bool :=
  match Diag_ID d with
  | diag.return_from_noreturn => true
  | _ => false
  end.

(** The instruction is of one of the four classes the diagnosers look at. *)
Definition isInspected (I : SILInstruction) : bool :=
  isa_UnreachableInst I || isa_BranchInst I || isa_ReturnInst I || isa_ApplyInst I.

(** How a loop of visits over the instructions [l] ends: with the message
    of the first instruction whose visit stops, or well. *)
Fixpoint firstFailure (F : SILFunction) (l : list SILInstruction) : Outcome unit :=
  match l with
  | [] => Ok tt
  | J :: rest =>
      match failureOf F J with
      | Some msg => Fatal msg
      | None => firstFailure F rest
      end
  end.

(** The instructions of [l] that get visited: all of them up to the first
    one whose visit stops, that one included. *)
Fixpoint visitedPrefix (F : SILFunction) (l : list SILInstruction)
  : list SILInstruction :=
  match l with
  | [] => []
  | J :: rest =>
      match failureOf F J with
      | Some _ => [J]
      | None => J :: visitedPrefix F rest
      end
  end.

(** The ordering rule of the run, for every function: the run completes and
    has appended what the visits of all instructions emit, block after
    block and instruction after instruction. *)
Definition run_completes_in_order : Prop :=
  forall M : SILModule,
    let F := getFunction M in
    run M
    = (Ok tt,
       emitted M
         (flat_map (fun BB => flat_map (diagnosticsOf F) (Insts BB)) (Blocks F))).

(** ** The compiler invocation and the compiler instance
    (include/swift/Frontend/Frontend.h) *)

(** [unsigned], 32 bits wide: a number is reduced to that width when it is
    passed or stored as one.  [not_0U] is [~0U]. *)
Definition to_unsigned (z : Z) : Z := (z mod 2 ^ 32)%Z.

Definition not_0U : Z := to_unsigned (Z.lnot 0).

(** A pointer to an object that the header only declares ([MemoryBuffer],
    [CodeCompletionCallbacksFactory], [Module], ...), by the identity of the
    object; [None] is [nullptr]. *)
Definition Ptr : Type := option N.

Section Frontend.

(** The option structures and enumerations that the header names without
    looking into them. *)
Variables LangOptions DiagnosticOptions SourceFileKind LibraryKind : Type.
Variables SourceManager DiagnosticEngine : Type.

Record LinkLibrary : Type := mkLinkLibrary {
  LinkLibrary_name : string;
  LinkLibrary_kind : LibraryKind
}.

(** The option structures the header looks into, with the members it reads
    or writes. *)
Record FrontendOptions : Type := mkFrontendOptions {
  InputFilenames : list string;
  InputBuffers : list Ptr;
  OutputFilename : string;
  ModuleName : string;
  SerializedDiagnosticsPath : string;
  InputKind : SourceFileKind;
  ParseStdlib : bool;
  ParseOnly : bool;
  DelayedFunctionBodyParsing : bool
}.

Record ClangImporterOptions : Type := mkClangImporterOptions {
  ModuleCachePath : string;
  ExtraArgs : list string
}.

Record SearchPathOptions : Type := mkSearchPathOptions {
  SDKPath : string;
  ImportSearchPaths : list string;
  FrameworkSearchPaths : list string
}.

Record TargetOptions : Type := mkTargetOptions {
  Triple : string
}.

Record IRGenOptions : Type := mkIRGenOptions {
  LinkLibraries : list LinkLibrary
}.

Record CompilerInvocation : Type := mkCompilerInvocation {
  LangOpts : LangOptions;
  FrontendOpts : FrontendOptions;
  ClangImporterOpts : ClangImporterOptions;
  SearchPathOpts : SearchPathOptions;
  TargetOpts : TargetOptions;
  DiagnosticOpts : DiagnosticOptions;
  IRGenOpts : IRGenOptions;
  Immediate : bool;
  CodeCompletionBuffer : Ptr;
  CodeCompletionOffset : Z;
  CodeCompletionFactory : Ptr
}.

(** Assignments to one member of the invocation. *)
Definition with_FrontendOpts (Inv : CompilerInvocation) (FO : FrontendOptions)
  : CompilerInvocation :=
  mkCompilerInvocation (LangOpts Inv) FO (ClangImporterOpts Inv)
    (SearchPathOpts Inv) (TargetOpts Inv) (DiagnosticOpts Inv) (IRGenOpts Inv)
    (Immediate Inv) (CodeCompletionBuffer Inv) (CodeCompletionOffset Inv)
    (CodeCompletionFactory Inv).

Definition with_IRGenOpts (Inv : CompilerInvocation) (IO : IRGenOptions)
  : CompilerInvocation :=
  mkCompilerInvocation (LangOpts Inv) (FrontendOpts Inv) (ClangImporterOpts Inv)
    (SearchPathOpts Inv) (TargetOpts Inv) (DiagnosticOpts Inv) IO
    (Immediate Inv) (CodeCompletionBuffer Inv) (CodeCompletionOffset Inv)
    (CodeCompletionFactory Inv).

Definition with_CodeCompletionPoint (Inv : CompilerInvocation) (Buf : Ptr)
  (Offset : Z) : CompilerInvocation :=
  mkCompilerInvocation (LangOpts Inv) (FrontendOpts Inv) (ClangImporterOpts Inv)
    (SearchPathOpts Inv) (TargetOpts Inv) (DiagnosticOpts Inv) (IRGenOpts Inv)
    (Immediate Inv) Buf Offset (CodeCompletionFactory Inv).

Definition with_Inputs (FO : FrontendOptions) (Filenames : list string)
  (Buffers : list Ptr) : FrontendOptions :=
  mkFrontendOptions Filenames Buffers (OutputFilename FO) (ModuleName FO)
    (SerializedDiagnosticsPath FO) (InputKind FO) (ParseStdlib FO)
    (ParseOnly FO) (DelayedFunctionBodyParsing FO).

(** [IRGenOpts.LinkLibraries.push_back({name, kind})] *)
Definition addLinkLibrary (name : string) (kind : LibraryKind)
  (Inv : CompilerInvocation) : CompilerInvocation :=
  with_IRGenOpts Inv
    (mkIRGenOptions (LinkLibraries (IRGenOpts Inv) ++ [mkLinkLibrary name kind])).

Definition getLinkLibraries (Inv : CompilerInvocation) : list LinkLibrary :=
  LinkLibraries (IRGenOpts Inv).

(** [FrontendOpts.InputFilenames.push_back(Filename)] *)
Definition addInputFilename (Filename : string) (Inv : CompilerInvocation)
  : CompilerInvocation :=
  let FO := FrontendOpts Inv in
  with_FrontendOpts Inv
    (with_Inputs FO (InputFilenames FO ++ [Filename]) (InputBuffers FO)).

(** [FrontendOpts.InputBuffers.push_back(Buf)] *)
Definition addInputBuffer (Buf : Ptr) (Inv : CompilerInvocation)
  : CompilerInvocation :=
  let FO := FrontendOpts Inv in
  with_FrontendOpts Inv
    (with_Inputs FO (InputFilenames FO) (InputBuffers FO ++ [Buf])).

Definition clearInputs (Inv : CompilerInvocation) : CompilerInvocation :=
  with_FrontendOpts Inv (with_Inputs (FrontendOpts Inv) [] []).

Definition getInputFilenames (Inv : CompilerInvocation) : list string :=
  InputFilenames (FrontendOpts Inv).

Definition getInputBuffers (Inv : CompilerInvocation) : list Ptr :=
  InputBuffers (FrontendOpts Inv).

(** [setCodeCompletionPoint(Buf, Offset)], with its [assert(Buf)]. *)
Definition setCodeCompletionPoint (Buf : Ptr) (Offset : Z)
  : St CompilerInvocation unit :=
  assert_ (match Buf with Some _ => true | None => false end) "Buf" ;;
  fun Inv => (Ok tt, with_CodeCompletionPoint Inv Buf (to_unsigned Offset)).

Definition getCodeCompletionPoint (Inv : CompilerInvocation) : Ptr * Z :=
  (CodeCompletionBuffer Inv, CodeCompletionOffset Inv).

(** [CodeCompletionOffset != ~0U] *)
Definition isCodeCompletion (Inv : CompilerInvocation) : bool :=
  negb (CodeCompletionOffset Inv =? not_0U)%Z.

(** The compiler instance.  A [std::unique_ptr] is the object it owns, or
    [None] when it owns nothing. *)
Record CompilerInstance : Type := mkCompilerInstance {
  Invocation : CompilerInvocation;
  SourceMgr : SourceManager;
  Diagnostics : DiagnosticEngine;
  Context : option ASTContext;
  TheSILModule : option SILModule;
  MainModule : Ptr;
  SML : Ptr;
  BufferIDs : list Z;
  MainBufferID : Z;
  PrimaryBufferID : Z;
  PrimarySourceFile : Ptr
}.

Definition with_TheSILModule (CI : CompilerInstance) (M : option SILModule)
  : CompilerInstance :=
  mkCompilerInstance (Invocation CI) (SourceMgr CI) (Diagnostics CI) (Context CI)
    M (MainModule CI) (SML CI) (BufferIDs CI) (MainBufferID CI)
    (PrimaryBufferID CI) (PrimarySourceFile CI).

(** [TheSILModule = std::move(M)]: the instance owns [M] from now on (the
    module it owned before is destroyed). *)
Definition setSILModule (M : option SILModule) (CI : CompilerInstance)
  : CompilerInstance :=
  with_TheSILModule CI M.

(** [TheSILModule.get()] *)
Definition getSILModule (CI : CompilerInstance) : option SILModule :=
  TheSILModule CI.

(** [return std::move(TheSILModule)]: the module goes to the caller and the
    instance owns nothing. *)
Definition takeSILModule (CI : CompilerInstance)
  : option SILModule * CompilerInstance :=
  (TheSILModule CI, with_TheSILModule CI None).

(** [static_cast<bool>(TheSILModule)] *)
Definition hasSILModule (CI : CompilerInstance) : bool :=
  match TheSILModule CI with
  | Some _ => true
  | None => false
  end.

(** [CompilerInstance::getLinkLibraries()] *)
Definition CompilerInstance_getLinkLibraries (CI : CompilerInstance)
  : list LinkLibrary :=
  getLinkLibraries (Invocation CI).

End Frontend.

(** An invocation and an instance to test on. *)
Definition test_invocation : CompilerInvocation unit unit unit bool :=
  mkCompilerInvocation tt
    (mkFrontendOptions ["main.swift"%string] [] "a.out" "main" "" tt false false false)
    (mkClangImporterOptions "" [])
    (mkSearchPathOptions "" [] [])
    (mkTargetOptions "x86_64-apple-macosx10.9")
    tt
    (mkIRGenOptions [mkLinkLibrary "z" true])
    false None not_0U None.

Definition test_instance : CompilerInstance unit unit unit bool unit unit :=
  mkCompilerInstance test_invocation tt tt None None None None [] not_0U not_0U None.

(** A report, then a static report without argument, then a switch that
    falls through: the run stops at the second instruction. *)
Definition f_stops : SILFunction :=
  mkSILFunction (loc_of (Node_FuncDecl (Int_decl false)) RegularKind 10 90)
    [ mkSILBasicBlock
        [ ApplyInst (loc_of Node_Other RegularKind 20 25) static_report_ref
            [literal 1];
          ApplyInst (loc_of Node_Other RegularKind 26 29) static_report_ref [];
          BranchInst None ];
      mkSILBasicBlock
        [ UnreachableInst (loc_of Node_SwitchStmt RegularKind 30 60) ] ].

(** A no-return function with a literal and a terminator that is neither a
    branch, a return nor an unreachable (a conditional branch, say), at
    the location of a return statement. *)
Definition quiet_function : SILFunction :=
  mkSILFunction (loc_of (Node_FuncDecl (Int_decl true)) RegularKind 0 40)
    [ mkSILBasicBlock
        [ IntegerLiteralInst (loc_of Node_Other RegularKind 20 21) (mkAPInt 1 1);
          OtherTermInst (loc_of Node_ReturnStmt ReturnKind 13 21) ];
      mkSILBasicBlock [] ].

Example run_f_missing_return :
  run (fresh f_missing_return)
  = (Ok tt,
     emitted (fresh f_missing_return)
       [ mkDiagnostic (SourceLoc_at 20) diag.static_report_error;
         mkDiagnostic (SourceLoc_at 60) diag.non_exhaustive_switch;
         mkDiagnostic (SourceLoc_at 90)
           (diag.missing_return (NominalType "Int") 0) ]).
Proof. reflexivity. Qed.

Example run_g_noreturn :
  run (fresh g_noreturn)
  = (Ok tt,
     emitted (fresh g_noreturn)
       [ mkDiagnostic (SourceLoc_at 13) diag.return_from_noreturn ]).
Proof. reflexivity. Qed.

Example run_h_constructor :
  run (fresh h_constructor)
  = (Fatal "unhandled case in MissingReturn", fresh h_constructor).
Proof. reflexivity. Qed.

Example run_k_function :
  run (fresh k_function)
  = (Ok tt,
     emitted (fresh k_function)
       [ mkDiagnostic (SourceLoc_at 30)
           (diag.missing_return (NominalType "Int") 0) ]).
Proof. reflexivity. Qed.

(** ** Computations that only emit *)

Section Appending.

Variable S : Type.
Variable extend : S -> list Diagnostic -> S.
Hypothesis extend_nil : forall s, extend s [] = s.
Hypothesis extend_app :
  forall s ds1 ds2, extend (extend s ds1) ds2 = extend s (ds1 ++ ds2).

Lemma appends_ret (A : Type) (a : A) : appends extend (ret a) (Ok a) [].
Proof. intro s. unfold ret. now rewrite extend_nil. Qed.

Lemma appends_abort (A : Type) (msg : string) :
  appends extend (@abort S A msg) (Fatal msg) [].
Proof. intro s. unfold abort. now rewrite extend_nil. Qed.

Lemma appends_bind_Ok (A B : Type) (m : St S A) (k : A -> St S B) a ds1 r ds2 :
  appends extend m (Ok a) ds1 ->
  appends extend (k a) r ds2 ->
  appends extend (bind m k) r (ds1 ++ ds2).
Proof.
  intros Hm Hk s. unfold bind. rewrite Hm, Hk. now rewrite extend_app.
Qed.

Lemma appends_bind_Fatal (A B : Type) (m : St S A) (k : A -> St S B) msg ds :
  appends extend m (Fatal msg) ds ->
  appends extend (bind m k) (Fatal msg) ds.
Proof. intros Hm s. unfold bind. now rewrite Hm. Qed.

Lemma uniform_ret (A : Type) (a : A) : uniform extend (ret a).
Proof. exists (Ok a), []. apply appends_ret. Qed.

Lemma uniform_abort (A : Type) (msg : string) : uniform extend (@abort S A msg).
Proof. exists (Fatal msg), []. apply appends_abort. Qed.

Lemma uniform_bind (A B : Type) (m : St S A) (k : A -> St S B) :
  uniform extend m -> (forall a, uniform extend (k a)) -> uniform extend (bind m k).
Proof.
  intros (r & ds & Hm) Hk. destruct r as [a | msg].
  - destruct (Hk a) as (r' & ds' & Hka).
    exists r', (ds ++ ds'). eapply appends_bind_Ok; eassumption.
  - exists (Fatal msg), ds. now apply appends_bind_Fatal.
Qed.

Lemma uniform_assert (cond : bool) (msg : string) :
  uniform extend (@assert_ S cond msg).
Proof. destruct cond; [apply uniform_ret | apply uniform_abort]. Qed.

Lemma uniform_for_each (A : Type) (body : A -> St S unit) (l : list A) :
  (forall x, uniform extend (body x)) -> uniform extend (for_each l body).
Proof.
  intro Hbody. induction l as [| x rest IH]; simpl.
  - apply uniform_ret.
  - apply uniform_bind; [apply Hbody | intros _; exact IH].
Qed.

(** A loop whose every round completes emits the rounds' diagnostics in
    the order of the list. *)
Lemma appends_for_each (A : Type) (body : A -> St S unit)
  (f : A -> list Diagnostic) (l : list A) :
  Forall (fun x => appends extend (body x) (Ok tt) (f x)) l ->
  appends extend (for_each l body) (Ok tt) (flat_map f l).
Proof.
  induction 1 as [| x rest Hx _ IH]; simpl.
  - apply appends_ret.
  - eapply appends_bind_Ok; eassumption.
Qed.

(** A loop over a concatenation is the two loops in sequence. *)
Lemma for_each_app (A : Type) (body : A -> St S unit) (l1 l2 : list A) (s : S) :
  for_each (l1 ++ l2) body s = (for_each l1 body ;; for_each l2 body) s.
Proof.
  revert s. induction l1 as [| x rest IH]; intro s; simpl.
  - reflexivity.
  - unfold bind in *. destruct (body x s) as [[[] | msg] s'].
    + apply IH.
    + reflexivity.
Qed.

(** Two nested loops are one loop over the flattened list. *)
Lemma for_each_flat_map (A B : Type) (inner : A -> list B) (body : B -> St S unit)
  (l : list A) (s : S) :
  for_each l (fun x => for_each (inner x) body) s
  = for_each (flat_map inner l) body s.
Proof.
  revert s. induction l as [| x rest IH]; intro s; simpl.
  - reflexivity.
  - rewrite for_each_app. unfold bind.
    destruct (for_each (inner x) body s) as [[[] | msg] s'].
    + apply IH.
    + reflexivity.
Qed.

End Appending.

Lemma emittedC_nil (C : ASTContext) : emittedC C [] = C.
Proof. destruct C as [ds]. unfold emittedC; simpl. now rewrite app_nil_r. Qed.

Lemma emittedC_app (C : ASTContext) (ds1 ds2 : list Diagnostic) :
  emittedC (emittedC C ds1) ds2 = emittedC C (ds1 ++ ds2).
Proof. unfold emittedC; simpl. now rewrite app_assoc. Qed.

Lemma emitted_nil (M : SILModule) : emitted M [] = M.
Proof. destruct M as [F [ds]]. unfold emitted; simpl. now rewrite app_nil_r. Qed.

Lemma emitted_app (M : SILModule) (ds1 ds2 : list Diagnostic) :
  emitted (emitted M ds1) ds2 = emitted M (ds1 ++ ds2).
Proof. unfold emitted; simpl. now rewrite app_assoc. Qed.

Lemma appends_diagnose (loc : SourceLoc) (d : diag.Diag) :
  appends emittedC (diagnose loc d) (Ok tt) [mkDiagnostic loc d].
Proof. intro C. reflexivity. Qed.

Lemma appends_onASTContext (A : Type) (m : St ASTContext A) r ds :
  appends emittedC m r ds -> appends emitted (onASTContext m) r ds.
Proof. intros Hm M. unfold onASTContext. now rewrite Hm. Qed.

Lemma uniform_diagnose (loc : SourceLoc) (d : diag.Diag) :
  uniform emittedC (diagnose loc d).
Proof. eexists _, _. apply appends_diagnose. Qed.

Lemma uniform_onASTContext (A : Type) (m : St ASTContext A) :
  uniform emittedC m -> uniform emitted (onASTContext m).
Proof. intros (r & ds & Hm). exists r, ds. now apply appends_onASTContext. Qed.

Create HintDb emits.

#[local] Hint Resolve emittedC_nil emittedC_app emitted_nil emitted_app : emits.
#[local] Hint Resolve uniform_ret uniform_abort uniform_assert uniform_diagnose
  uniform_onASTContext : emits.

(** Splits a computation along its binds and its tests. *)
Ltac uniform_steps :=
  repeat
    (first
       [ apply uniform_bind; [solve [auto with emits] | | intros ?]
       | progress cbv beta zeta
       | match goal with
         | |- uniform _ (if ?b then _ else _) => destruct b
         | |- uniform _ (match ?o with Some _ => _ | None => _ end) => destruct o
         end
       | solve [auto with emits] ]).

(** ** Every diagnoser only emits *)

Lemma uniform_diagnoseMissingReturn (UI : SILInstruction) (F : SILFunction) :
  uniform emittedC (diagnoseMissingReturn UI F).
Proof. unfold diagnoseMissingReturn. uniform_steps. Qed.

Lemma uniform_diagnoseNonExhaustiveSwitch (UI : SILInstruction) :
  uniform emittedC (diagnoseNonExhaustiveSwitch UI).
Proof. unfold diagnoseNonExhaustiveSwitch. uniform_steps. Qed.

#[local] Hint Resolve uniform_diagnoseMissingReturn
  uniform_diagnoseNonExhaustiveSwitch : emits.

Lemma uniform_diagnoseUnreachable (I : SILInstruction) (F : SILFunction) :
  uniform emittedC (diagnoseUnreachable I F).
Proof. unfold diagnoseUnreachable. uniform_steps. Qed.

Lemma uniform_diagnoseReturn (I : SILInstruction) (F : SILFunction) :
  uniform emittedC (diagnoseReturn I F).
Proof. unfold diagnoseReturn. uniform_steps. Qed.

Lemma uniform_operand_at (Args : list ValueBase) (i : nat) :
  uniform emitted (@operand_at SILModule Args i).
Proof. unfold operand_at. uniform_steps. Qed.

#[local] Hint Resolve uniform_diagnoseUnreachable uniform_diagnoseReturn
  uniform_operand_at : emits.

Lemma uniform_diagnoseStaticReports (I : SILInstruction) :
  uniform emitted (diagnoseStaticReports I).
Proof.
  unfold diagnoseStaticReports.
  destruct I; auto with emits. uniform_steps.
Qed.

#[local] Hint Resolve uniform_diagnoseStaticReports : emits.

Lemma uniform_visit (F : SILFunction) (I : SILInstruction) :
  uniform emitted (visit F I).
Proof. unfold visit. uniform_steps. Qed.

(** The visit of an instruction does the same from every state: it ends as
    from the fresh state and emits what it emits there. *)
Lemma visit_appends (F : SILFunction) (I : SILInstruction) :
  appends emitted (visit F I) (fst (visit F I (fresh F))) (diagnosticsOf F I).
Proof.
  destruct (uniform_visit F I) as (r & ds & H).
  unfold diagnosticsOf. rewrite (H (fresh F)). simpl. exact H.
Qed.

Lemma run_flat (M : SILModule) :
  run M = for_each (instructions (getFunction M)) (visit (getFunction M)) M.
Proof. unfold run, instructions. apply for_each_flat_map. Qed.

Lemma uniform_run (F : SILFunction) :
  exists r ds, forall C, run (mkSILModule F C) = (r, emitted (mkSILModule F C) ds).
Proof.
  destruct (uniform_for_each emitted_nil emitted_app (visit F) (instructions F)
              (uniform_visit F)) as (r & ds & H).
  exists r, ds. intro C. rewrite run_flat. apply H.
Qed.

(** ** The unreachable-code diagnoser *)

(** Runs a visit on a module whose parts are all variables or values. *)
Ltac eval_visit :=
  unfold visit, onASTContext, emitted, bind, ret; cbn;
  rewrite ?app_nil_r; try reflexivity.

(** C4: an [Unreachable] terminator whose location is invalid makes the
    unreachable-code diagnoser emit nothing, and the whole visit of that
    instruction emits nothing either, whatever the enclosing function's AST
    origin, result type and no-return attribute are. *)
Theorem unreachable_invalid_location_silent
  (F : SILFunction) (L : SILLocation) (C : ASTContext) (M : SILModule) :
  hasASTLocation L = false ->
  diagnoseUnreachable (UnreachableInst L) F C = (Ok tt, C)
  /\ visit F (UnreachableInst L) M = (Ok tt, M).
Proof.
  intro HL. destruct L as [a |]; [discriminate HL |].
  split; [reflexivity |].
  destruct M as [F' [ds]]. reflexivity.
Qed.

Lemma unreachable_invalid_location_silent_witness :
  diagnoseUnreachable (UnreachableInst None) f_missing_return (mkASTContext [])
  = (Ok tt, mkASTContext [])
  /\ visit f_missing_return (UnreachableInst None) (fresh f_missing_return)
     = (Ok tt, fresh f_missing_return).
Proof.
  apply (@unreachable_invalid_location_silent
           f_missing_return None (mkASTContext []) (fresh f_missing_return)).
  reflexivity.
Defined.

(** C5: an [Unreachable] terminator whose valid location refers to a switch
    statement gets exactly one [non_exhaustive_switch] diagnostic, without
    arguments, at the end position of that location; one whose valid location
    refers to anything but a function declaration, a closure expression or a
    switch statement gets no diagnostic. *)
Theorem unreachable_switch_or_unrecognized
  (F : SILFunction) (L : SILLocation) (M : SILModule) :
  (hasASTLocation L = true ->
   isASTNode_SwitchStmt L = true ->
   visit F (UnreachableInst L) M
   = (Ok tt,
      emitted M [mkDiagnostic (getEndSourceLoc L) diag.non_exhaustive_switch]))
  /\
  (hasASTLocation L = true ->
   isASTNode_AbstractFunctionDecl L = false ->
   isASTNode_ClosureExpr L = false ->
   isASTNode_SwitchStmt L = false ->
   visit F (UnreachableInst L) M = (Ok tt, M)).
Proof.
  destruct M as [F' [ds]].
  destruct L as [[n k s e] |]; split; intros; try discriminate;
    destruct n; try discriminate; eval_visit.
Qed.

Lemma unreachable_switch_or_unrecognized_witness :
  visit f_missing_return
    (UnreachableInst (loc_of Node_SwitchStmt RegularKind 30 60))
    (fresh f_missing_return)
  = (Ok tt,
     emitted (fresh f_missing_return)
       [mkDiagnostic (SourceLoc_at 60) diag.non_exhaustive_switch])
  /\
  visit f_missing_return
    (UnreachableInst (loc_of Node_ReturnStmt ReturnKind 30 60))
    (fresh f_missing_return)
  = (Ok tt, fresh f_missing_return).
Proof.
  split.
  - apply (proj1 (@unreachable_switch_or_unrecognized f_missing_return
                    (loc_of Node_SwitchStmt RegularKind 30 60)
                    (fresh f_missing_return))); reflexivity.
  - apply (proj2 (@unreachable_switch_or_unrecognized f_missing_return
                    (loc_of Node_ReturnStmt ReturnKind 30 60)
                    (fresh f_missing_return))); reflexivity.
Defined.

(** C1, as the code has it: for an [Unreachable] terminator whose valid
    location refers to a function declaration or to a closure expression, in
    a function that comes from a [FuncDecl] or from a closure expression,
    the visit emits one [missing_return] diagnostic at the end position of
    the instruction's location, with the function's declared result type and
    with the flag of the function's own origin (0 for a function
    declaration, 1 for a closure expression), exactly when the result type
    is not void and the signature is not marked no-return; otherwise it
    emits nothing.  In a function of any other origin the diagnoser stops on
    its unhandled case. *)
Theorem missing_return_diagnosis
  (F : SILFunction) (L : SILLocation) (M : SILModule) :
  hasASTLocation L = true ->
  isASTNode_AbstractFunctionDecl L || isASTNode_ClosureExpr L = true ->
  (declaredSignature F <> None ->
   visit F (UnreachableInst L) M
   = (Ok tt, emitted M (missingReturnDiagnostics (originFlag F) F L)))
  /\
  (declaredSignature F = None ->
   visit F (UnreachableInst L) M = (Fatal "unhandled case in MissingReturn", M)).
Proof.
  intros HL Htag.
  destruct M as [F' [ds]].
  destruct L as [[n k s e] |]; [| discriminate HL].
  destruct F as [[[fn fk fs fe] |] blocks];
    destruct n; try discriminate Htag;
    (split; intro HF;
     [ try (exfalso; apply HF; reflexivity) | try discriminate HF ]);
    try (destruct fn as [[R [noret]] | | [R [noret]] | | |];
         try (exfalso; apply HF; reflexivity); try discriminate HF;
         try (destruct R, noret; eval_visit));
    eval_visit.
Qed.

Lemma missing_return_diagnosis_witness :
  visit f_missing_return (UnreachableInst (getLocation f_missing_return))
    (fresh f_missing_return)
  = (Ok tt,
     emitted (fresh f_missing_return)
       [mkDiagnostic (SourceLoc_at 90) (diag.missing_return (NominalType "Int") 0)]).
Proof.
  apply (proj1 (@missing_return_diagnosis f_missing_return
                  (getLocation f_missing_return) (fresh f_missing_return)
                  eq_refl eq_refl)).
  discriminate.
Defined.

(** C1 as it is stated fails: in [k_function], which comes from a function
    declaration returning [Int], the unreachable's location refers to a
    closure expression, and the diagnostic carries the flag 0 of the
    function, not the flag 1 of the location's construct. *)
Lemma missing_return_flag_of_location_fails :
  hasASTLocation k_closure_location = true
  /\ isASTNode_ClosureExpr k_closure_location = true
  /\ declaredSignature k_function = Some (NominalType "Int", false)
  /\ visit k_function (UnreachableInst k_closure_location) (fresh k_function)
     = (Ok tt,
        emitted (fresh k_function)
          [mkDiagnostic (SourceLoc_at 30)
             (diag.missing_return (NominalType "Int") 0)])
  /\ ~ missing_return_flag_of_location.
Proof.
  repeat split.
  intro H.
  specialize (H k_function k_closure_location (fresh k_function)
                eq_refl eq_refl).
  assert (Hsig : declaredSignature k_function <> None) by discriminate.
  specialize (H Hsig). vm_compute in H. discriminate H.
Qed.

(** ** The no-return diagnoser *)

(** C2: for a [Branch] or a [Return] terminator, the visit emits one
    [return_from_noreturn] diagnostic at the start position of the
    terminator's location exactly when the enclosing function comes from a
    function declaration whose signature is marked no-return and the
    location is that of an explicit or of an implicit return; otherwise it
    emits nothing.  In particular nothing is emitted in a function that comes
    from a closure expression, nor for an invalid location; and for an
    [Unreachable] terminator the no-return diagnoser does nothing, so that no
    diagnostic of its visit is a [return_from_noreturn]. *)
Theorem return_from_noreturn_diagnosis
  (F : SILFunction) (I : SILInstruction) (M : SILModule) :
  (isa_BranchInst I || isa_ReturnInst I = true ->
   visit F I M
   = (Ok tt,
      emitted M
        (if isNoReturnFuncDecl F && isReturnLocation (getLoc I)
         then [mkDiagnostic (getSourceLoc (getLoc I)) diag.return_from_noreturn]
         else []))
   /\ (isASTNode_ClosureExpr (getLocation F) = true -> visit F I M = (Ok tt, M))
   /\ (hasASTLocation (getLoc I) = false -> visit F I M = (Ok tt, M)))
  /\
  (isa_UnreachableInst I = true ->
   (forall C, diagnoseReturn I F C = (Ok tt, C))
   /\ (forall d, In d (diagnosticsOf F I) -> Diag_ID d <> diag.return_from_noreturn)).
Proof.
  split.
  - intro HI. destruct M as [F' [ds]].
    destruct I as [L | L | L | L | L c a | L v | L b | L]; try discriminate HI;
      (destruct F as [[[fn fk fs fe] |] blocks];
       [ destruct fn as [[R [[|]]] | | CE | | |] |];
       (destruct L as [[n [] s e] |];
        (split; [| split; intro H; try discriminate H]); eval_visit)).
  - intro HI.
    destruct I as [L | L | L | L | L c a | L v | L b | L]; try discriminate HI.
    split; [reflexivity |].
    intros d Hd.
    destruct L as [[n k s e] |]; [| destruct Hd].
    destruct F as [[[fn fk fs fe] |] blocks];
      [ destruct fn as [[R [noret]] | | [R [noret]] | | |] |];
      destruct n; try destruct R; try destruct noret; cbn in Hd;
      repeat match goal with
             | H : _ \/ _ |- _ => destruct H
             | H : False |- _ => destruct H
             | H : _ = d |- _ => subst d; discriminate
             end.
Qed.

Lemma return_from_noreturn_diagnosis_witness :
  visit g_noreturn (ReturnInst (loc_of Node_ReturnStmt ReturnKind 13 21))
    (fresh g_noreturn)
  = (Ok tt,
     emitted (fresh g_noreturn)
       [mkDiagnostic (SourceLoc_at 13) diag.return_from_noreturn])
  /\ (forall C, diagnoseReturn (UnreachableInst None) g_noreturn C = (Ok tt, C)).
Proof.
  split.
  - apply (proj1 (proj1 (@return_from_noreturn_diagnosis g_noreturn
                    (ReturnInst (loc_of Node_ReturnStmt ReturnKind 13 21))
                    (fresh g_noreturn)) eq_refl)).
  - apply (proj1 (proj2 (@return_from_noreturn_diagnosis g_noreturn
                    (UnreachableInst None) (fresh g_noreturn)) eq_refl)).
Defined.

(** ** The static-report diagnoser *)

Lemma isStaticReportRef_dyn_cast (Callee : ValueBase) :
  match dyn_cast_BuiltinFunctionRefInst Callee with
  | Some B => BuiltinValueKind_eqb (ID B) StaticReport
  | None => false
  end = isStaticReportRef Callee.
Proof. destruct Callee as [| []]; reflexivity. Qed.

Lemma firstArgumentIsOne_null_or_not_one (V : ValueBase) (rest : list ValueBase) :
  null_or_not_one (dyn_cast_IntegerLiteralInst V)
  = negb (firstArgumentIsOne (V :: rest)).
Proof.
  destruct V as [| []]; reflexivity.
Qed.

(** What [diagnoseStaticReports] does on a call, in every case. *)
Lemma diagnoseStaticReports_ApplyInst
  (L : SILLocation) (Callee : ValueBase) (Args : list ValueBase) (M : SILModule) :
  diagnoseStaticReports (ApplyInst L Callee Args) M
  = (if isStaticReportRef Callee && isEmpty Args
     then Fatal "Invalid index!" else Ok tt,
     emitted M
       (if isStaticReportRef Callee && firstArgumentIsOne Args
        then [mkDiagnostic (getSourceLoc L) diag.static_report_error]
        else [])).
Proof.
  unfold diagnoseStaticReports.
  rewrite <- (isStaticReportRef_dyn_cast Callee).
  destruct (dyn_cast_BuiltinFunctionRefInst Callee) as [B |];
    [destruct (BuiltinValueKind_eqb (ID B) StaticReport) |];
    cbn; try (now rewrite emitted_nil).
  destruct Args as [| V rest].
  - cbn. unfold bind, abort. cbn. now rewrite emitted_nil.
  - pose proof (firstArgumentIsOne_null_or_not_one V rest) as HV.
    destruct (firstArgumentIsOne (V :: rest));
      unfold bind, operand_at, ret;
      change (nth_error (V :: rest) 0) with (Some V); cbv beta iota zeta;
      rewrite HV; cbn.
    + reflexivity.
    + unfold ret. now rewrite emitted_nil.
Qed.

Lemma visit_ApplyInst
  (F : SILFunction) (L : SILLocation) (Callee : ValueBase) (Args : list ValueBase)
  (M : SILModule) :
  visit F (ApplyInst L Callee Args) M
  = diagnoseStaticReports (ApplyInst L Callee Args) M.
Proof. destruct M as [F' [ds]]. reflexivity. Qed.

(** C3: for an [Apply] instruction, the visit emits one
    [static_report_error] diagnostic at the instruction's source position
    exactly when the callee is a reference to the static-report builtin and
    the first argument is an integer literal of value 1.  Another callee, a
    first argument that is not a literal, and a literal of another value
    (0 too) give no diagnostic. *)
Theorem static_report_diagnosis
  (F : SILFunction) (L : SILLocation) (Callee : ValueBase) (Args : list ValueBase)
  (M : SILModule) :
  let I := ApplyInst L Callee Args in
  let d := mkDiagnostic (getSourceLoc L) diag.static_report_error in
  visit F I M
  = (if isStaticReportRef Callee && isEmpty Args
     then Fatal "Invalid index!" else Ok tt,
     emitted M (if isStaticReportRef Callee && firstArgumentIsOne Args
                then [d] else []))
  /\ (diagnosticsOf F I = [d]
      <-> isStaticReportRef Callee = true /\ firstArgumentIsOne Args = true)
  /\ (isStaticReportRef Callee = false -> visit F I M = (Ok tt, M))
  /\ (forall V rest, Args = V :: rest -> dyn_cast_IntegerLiteralInst V = None ->
      visit F I M = (Ok tt, M))
  /\ (forall V rest v, Args = V :: rest -> dyn_cast_IntegerLiteralInst V = Some v ->
      ZExtValue v <> 1%Z -> visit F I M = (Ok tt, M)).
Proof.
  intros I d. subst I.
  unfold diagnosticsOf.
  rewrite !visit_ApplyInst, !diagnoseStaticReports_ApplyInst.
  split; [reflexivity |].
  split; [| split; [| split]].
  - cbn. destruct (isStaticReportRef Callee), (firstArgumentIsOne Args); cbn;
      split; intro H; try reflexivity; try discriminate H;
      try (destruct H; discriminate); auto.
  - intro H. rewrite H. cbn. now rewrite emitted_nil.
  - intros V rest -> HV.
    assert (Hone : firstArgumentIsOne (V :: rest) = false).
    { destruct V as [| []]; try reflexivity. discriminate HV. }
    rewrite Hone, !andb_false_r. cbn. now rewrite emitted_nil.
  - intros V rest v -> HV Hv.
    assert (Hone : firstArgumentIsOne (V :: rest) = false).
    { destruct V as [| []]; try discriminate HV.
      cbn in HV. injection HV as ->. cbn. now apply Z.eqb_neq. }
    rewrite Hone, !andb_false_r. cbn. now rewrite emitted_nil.
Qed.

Lemma static_report_diagnosis_witness :
  visit f_missing_return
    (ApplyInst (loc_of Node_Other RegularKind 62 66) static_report_ref [literal 0])
    (fresh f_missing_return)
  = (Ok tt, fresh f_missing_return).
Proof.
  apply (proj2 (proj2 (proj2 (proj2
           (@static_report_diagnosis f_missing_return
              (loc_of Node_Other RegularKind 62 66) static_report_ref [literal 0]
              (fresh f_missing_return)))))
           (literal 0) [] (mkAPInt 1 0) eq_refl eq_refl).
  discriminate.
Defined.

(** C9: a call of the static-report builtin whose first argument is an
    integer literal of value 1 gets its [static_report_error] diagnostic
    whatever the location of the call is, valid or not; the diagnoser does
    not test the location, and the diagnostic is at the position that the
    location gives, the invalid position for an invalid location. *)
Theorem static_report_ignores_location_validity
  (F : SILFunction) (L Lref Llit : SILLocation) (w : N) (rest : list ValueBase)
  (M : SILModule) :
  let Callee := InstValue (BuiltinFunctionRefInst Lref (mkBuiltinInfo StaticReport)) in
  let Arg0 := InstValue (IntegerLiteralInst Llit (mkAPInt w 1)) in
  let I := ApplyInst L Callee (Arg0 :: rest) in
  diagnoseStaticReports I M
  = (Ok tt, emitted M [mkDiagnostic (getSourceLoc L) diag.static_report_error])
  /\ visit F I M
     = (Ok tt, emitted M [mkDiagnostic (getSourceLoc L) diag.static_report_error])
  /\ (hasASTLocation L = false ->
      visit F I M
      = (Ok tt, emitted M [mkDiagnostic SourceLoc_invalid diag.static_report_error])).
Proof.
  intros Callee Arg0 I. subst Callee Arg0 I.
  rewrite visit_ApplyInst, diagnoseStaticReports_ApplyInst. cbn.
  repeat split.
  intro HL. destruct L as [a |]; [discriminate HL | reflexivity].
Qed.

Lemma static_report_ignores_location_validity_witness :
  visit f_missing_return (ApplyInst None static_report_ref [literal 1])
    (fresh f_missing_return)
  = (Ok tt,
     emitted (fresh f_missing_return)
       [mkDiagnostic SourceLoc_invalid diag.static_report_error]).
Proof.
  apply (proj2 (proj2 (@static_report_ignores_location_validity
                         f_missing_return None None None 1 []
                         (fresh f_missing_return)))).
  reflexivity.
Defined.

(** C10: once the callee is the static-report builtin, the diagnoser reads
    [Args[0]] before any other test.  When the call has at least one
    argument the index is in range and the diagnoser completes; when the
    call has no argument the index is out of range and the diagnoser stops
    there, with nothing emitted. *)
Theorem static_report_first_argument_bounds
  (L Lref : SILLocation) (Args : list ValueBase) (M : SILModule) :
  let Callee := InstValue (BuiltinFunctionRefInst Lref (mkBuiltinInfo StaticReport)) in
  let I := ApplyInst L Callee Args in
  diagnoseStaticReports I
  = (Arg0 <- operand_at Args 0 ;;
     if null_or_not_one (dyn_cast_IntegerLiteralInst Arg0) then ret tt
     else onASTContext
            (diagnose (getSourceLoc L) diag.static_report_error))
  /\ ((0 < List.length Args)%nat ->
      (exists V, nth_error Args 0 = Some V
                 /\ operand_at Args 0 M = (Ok V, M))
      /\ fst (diagnoseStaticReports I M) = Ok tt)
  /\ (List.length Args = 0%nat ->
      nth_error Args 0 = None
      /\ @operand_at SILModule Args 0 M = (Fatal "Invalid index!", M)
      /\ diagnoseStaticReports I M = (Fatal "Invalid index!", M)).
Proof.
  intros Callee I. subst Callee I.
  split; [reflexivity |].
  rewrite diagnoseStaticReports_ApplyInst.
  destruct Args as [| V rest]; cbn; split; intro H.
  - inversion H.
  - repeat split. now rewrite emitted_nil.
  - split; [| reflexivity]. exists V. split; reflexivity.
  - discriminate H.
Qed.

Lemma static_report_first_argument_bounds_witness :
  ((exists V, nth_error [literal 0] 0 = Some V
              /\ operand_at [literal 0] 0 (fresh f_missing_return)
                 = (Ok V, fresh f_missing_return))
   /\ fst (diagnoseStaticReports (ApplyInst None static_report_ref [literal 0])
             (fresh f_missing_return)) = Ok tt)
  /\ diagnoseStaticReports (ApplyInst None static_report_ref [])
       (fresh f_missing_return)
     = (Fatal "Invalid index!", fresh f_missing_return).
Proof.
  split.
  - apply (proj1 (proj2 (@static_report_first_argument_bounds
                           None None [literal 0] (fresh f_missing_return)))).
    simpl. lia.
  - apply (proj2 (proj2 (@static_report_first_argument_bounds
                           None None [] (fresh f_missing_return)))).
    reflexivity.
Defined.

(** ** The pass as a whole *)

(** C7: running the pass twice on the same function emits the same sequence
    of diagnostics twice, and ends the same way: what a run emits and how it
    ends depend on the function only, not on what was emitted before. *)
Theorem run_twice_same_diagnostics (M : SILModule) :
  exists r ds,
    run M = (r, emitted M ds)
    /\ run (emitted M ds) = (r, emitted (emitted M ds) ds)
    /\ forall C, run (mkSILModule (getFunction M) C)
                 = (r, emitted (mkSILModule (getFunction M) C) ds).
Proof.
  destruct (uniform_run (getFunction M)) as (r & ds & H).
  exists r, ds. destruct M as [F C]. simpl in *.
  split; [apply H |]. split; [| exact H].
  unfold emitted at 1 3. simpl. apply H.
Qed.

(** C8: a run does not change the function: its basic blocks, their
    instructions and terminators, the locations and the signature are after
    the run what they were before, whether the run completes or stops.  The
    only effect is that diagnostics are appended to those already there. *)
Theorem run_preserves_function (M : SILModule) :
  getFunction (snd (run M)) = getFunction M
  /\ exists ds,
       Diags (getASTContext (snd (run M))) = Diags (getASTContext M) ++ ds.
Proof.
  destruct (uniform_run (getFunction M)) as (r & ds & H).
  destruct M as [F C]. simpl in *. rewrite H. simpl.
  split; [reflexivity | now exists ds].
Qed.

(** ** Further properties of the pass *)

(** Splits the origin of the function and the location of the instruction
    into their cases. *)
Ltac split_origin F :=
  destruct F as [[[[[? [[|]]] | | [? [[|]]] | | |] ? ? ?] |] ?].

Ltac split_location L :=
  destruct L as [[[| | | | |] [| | |] ? ?] |].

Lemma outcome_fresh (F : SILFunction) (I : SILInstruction) :
  fst (visit F I (fresh F)) = outcomeOf F I.
Proof.
  destruct I as [L | L | L | L | L c a | L v | L b | L].
  5: { rewrite visit_ApplyInst, diagnoseStaticReports_ApplyInst.
       unfold outcomeOf, failureOf.
       now destruct (isStaticReportRef c && isEmpty a). }
  all: split_origin F; split_location L;
    try match goal with R : SwiftType |- _ => destruct R end; reflexivity.
Qed.

(** The visit of an instruction, from any state: how it ends and what it
    emits. *)
Lemma visit_effect (F : SILFunction) (I : SILInstruction) (M : SILModule) :
  visit F I M = (outcomeOf F I, emitted M (diagnosticsOf F I)).
Proof. rewrite <- outcome_fresh. apply visit_appends. Qed.

Lemma diagnosticsOf_ApplyInst
  (F : SILFunction) (L : SILLocation) (Callee : ValueBase) (Args : list ValueBase) :
  diagnosticsOf F (ApplyInst L Callee Args)
  = if isStaticReportRef Callee && firstArgumentIsOne Args
    then [mkDiagnostic (getSourceLoc L) diag.static_report_error]
    else [].
Proof.
  unfold diagnosticsOf.
  rewrite visit_ApplyInst, diagnoseStaticReports_ApplyInst. reflexivity.
Qed.

Lemma diagnosticsOf_length (F : SILFunction) (I : SILInstruction) :
  (List.length (diagnosticsOf F I) <= 1)%nat.
Proof.
  destruct I as [L | L | L | L | L c a | L v | L b | L].
  5: { rewrite diagnosticsOf_ApplyInst.
       destruct (isStaticReportRef c && firstArgumentIsOne a); simpl; lia. }
  all: split_origin F; split_location L;
    try match goal with R : SwiftType |- _ => destruct R end; cbn; lia.
Qed.

Lemma failure_emits_nothing (F : SILFunction) (I : SILInstruction) (msg : string) :
  failureOf F I = Some msg -> diagnosticsOf F I = [].
Proof.
  destruct I as [L | L | L | L | L c a | L v | L b | L]; try discriminate.
  - split_origin F; split_location L;
      try match goal with R : SwiftType |- _ => destruct R end;
      try discriminate; reflexivity.
  - rewrite diagnosticsOf_ApplyInst. unfold failureOf.
    destruct (isStaticReportRef c); [| discriminate].
    destruct a; [reflexivity | discriminate].
Qed.

(** X1: the visit of one instruction emits at most one diagnostic, whatever
    the instruction and the function are: the three diagnosers never add
    up, and the two tests of the no-return diagnoser never both fire. *)
Theorem visit_emits_at_most_one
  (F : SILFunction) (I : SILInstruction) (M : SILModule) :
  exists r ds,
    visit F I M = (r, emitted M ds) /\ (List.length ds <= 1)%nat.
Proof.
  exists (outcomeOf F I), (diagnosticsOf F I).
  split; [apply visit_effect | apply diagnosticsOf_length].
Qed.

(** X2: the visit of an instruction stops in two cases only: on an
    unreachable whose valid location is a function declaration or a closure
    expression, in a function that comes from neither a [FuncDecl] nor a
    closure expression; and on a call of the static-report builtin without
    argument.  It then has emitted nothing.  The assertions on the location
    in the two unreachable diagnosers never fail in a visit, and the
    no-return diagnoser never stops. *)
Theorem visit_stops_only_on
  (F : SILFunction) (I : SILInstruction) (M : SILModule) :
  visit F I M
  = (match failureOf F I with Some msg => Fatal msg | None => Ok tt end,
     emitted M (diagnosticsOf F I))
  /\ (failureOf F I <> None -> visit F I M = (outcomeOf F I, M))
  /\ (forall C, fst (diagnoseReturn I F C) = Ok tt).
Proof.
  split; [apply visit_effect |]. split.
  - intro H. rewrite visit_effect.
    destruct (failureOf F I) as [msg |] eqn:E; [| now destruct H].
    rewrite (failure_emits_nothing F I E). now rewrite emitted_nil.
  - intro C.
    destruct I as [L | L | L | L | L c a | L v | L b | L]; try reflexivity;
      split_origin F; split_location L; reflexivity.
Qed.

Lemma visit_stops_only_on_witness :
  visit h_constructor (UnreachableInst (getLocation h_constructor))
    (fresh h_constructor)
  = (Fatal "unhandled case in MissingReturn", fresh h_constructor).
Proof.
  apply (proj1 (proj2 (@visit_stops_only_on h_constructor
                         (UnreachableInst (getLocation h_constructor))
                         (fresh h_constructor)))).
  discriminate.
Defined.

(** A loop of visits: how far it gets, and where what it emits comes from. *)
Lemma for_each_visit_provenance (F : SILFunction) (l : list SILInstruction) :
  exists r ds,
    appends emitted (for_each l (visit F)) r ds
    /\ (List.length ds <= List.length l)%nat
    /\ (forall d, In d ds -> exists I, In I l /\ In d (diagnosticsOf F I)).
Proof.
  induction l as [| I rest IH]; simpl.
  - exists (Ok tt), []. split; [apply appends_ret, emitted_nil |].
    split; [simpl; lia | intros d []].
  - destruct IH as (r & ds & Hrest & Hlen & Hprov).
    pose proof (diagnosticsOf_length F I) as HI.
    assert (Hvisit : appends emitted (visit F I) (outcomeOf F I) (diagnosticsOf F I))
      by (intro M; apply visit_effect).
    destruct (outcomeOf F I) as [[] | msg].
    + exists r, (diagnosticsOf F I ++ ds). split; [| split].
      * eapply appends_bind_Ok; [apply emitted_app | exact Hvisit | exact Hrest].
      * rewrite length_app. lia.
      * intros d Hd. apply in_app_or in Hd. destruct Hd as [Hd | Hd].
        -- exists I. split; [now left | exact Hd].
        -- destruct (Hprov d Hd) as (J & HJ & HdJ).
           exists J. split; [now right | exact HdJ].
    + exists (Fatal msg), (diagnosticsOf F I). split; [| split].
      * now apply appends_bind_Fatal.
      * lia.
      * intros d Hd. exists I. split; [now left | exact Hd].
Qed.

(** X3: when the visit of an instruction stops, the run stops there with
    the same message: it has emitted the diagnostics of the instructions
    before that one, in order, and emits none for that instruction nor for
    any later one. *)
Theorem run_stops_at_first_failure
  (M : SILModule) (pre post : list SILInstruction) (I : SILInstruction)
  (msg : string) :
  let F := getFunction M in
  instructions F = pre ++ I :: post ->
  Forall (completes F) pre ->
  failureOf F I = Some msg ->
  run M = (Fatal msg, emitted M (flat_map (diagnosticsOf F) pre)).
Proof.
  intros F Hsplit Hpre HI.
  rewrite run_flat. fold F. rewrite Hsplit, for_each_app.
  assert (Hloop : appends emitted (for_each pre (visit F)) (Ok tt)
                    (flat_map (diagnosticsOf F) pre)).
  { apply (appends_for_each emitted_nil emitted_app).
    eapply Forall_impl; [| exact Hpre].
    intros J HJ. unfold completes in HJ. rewrite <- HJ. apply visit_appends. }
  unfold bind at 1. rewrite Hloop. simpl. unfold bind.
  rewrite visit_effect. unfold outcomeOf. rewrite HI.
  rewrite (failure_emits_nothing F I HI). now rewrite emitted_nil.
Qed.

Lemma run_stops_at_first_failure_witness :
  run (fresh f_stops)
  = (Fatal "Invalid index!",
     emitted (fresh f_stops)
       [mkDiagnostic (SourceLoc_at 20) diag.static_report_error]).
Proof.
  apply (@run_stops_at_first_failure (fresh f_stops)
           [ApplyInst (loc_of Node_Other RegularKind 20 25) static_report_ref
              [literal 1]]
           [BranchInst None;
            UnreachableInst (loc_of Node_SwitchStmt RegularKind 30 60)]
           (ApplyInst (loc_of Node_Other RegularKind 26 29) static_report_ref [])
           "Invalid index!").
  - reflexivity.
  - repeat constructor.
  - reflexivity.
Defined.

(** X4: a run, whether it completes or stops, emits at most as many
    diagnostics as the function has instructions, and each diagnostic it
    emits is one that the visit of an instruction of the function emits. *)
Theorem run_emits_from_instructions (M : SILModule) :
  let F := getFunction M in
  exists r ds,
    run M = (r, emitted M ds)
    /\ (List.length ds <= List.length (instructions F))%nat
    /\ (forall d, In d ds ->
        exists I, In I (instructions F) /\ In d (diagnosticsOf F I)).
Proof.
  intro F.
  destruct (for_each_visit_provenance F (instructions F))
    as (r & ds & Hrun & Hlen & Hprov).
  exists r, ds. split; [| split; assumption].
  rewrite run_flat. apply Hrun.
Qed.

(** X5: the kind of a diagnostic tells the class of the instruction it was
    emitted for and its position.  A missing return or a non-exhaustive
    switch is for an unreachable with a valid location, at the end position
    of that location; a return from a no-return function is for a branch or
    a return, at the start position of its location, which is valid; a
    static-report error is for a call, at the position of its location. *)
Theorem diagnostic_kind_tells_instruction
  (F : SILFunction) (I : SILInstruction) (d : Diagnostic) :
  In d (diagnosticsOf F I) ->
  match Diag_ID d with
  | diag.missing_return _ _ | diag.non_exhaustive_switch =>
      isa_UnreachableInst I = true
      /\ hasASTLocation (getLoc I) = true
      /\ Diag_Loc d = getEndSourceLoc (getLoc I)
  | diag.return_from_noreturn =>
      isa_BranchInst I || isa_ReturnInst I = true
      /\ hasASTLocation (getLoc I) = true
      /\ Diag_Loc d = getSourceLoc (getLoc I)
  | diag.static_report_error =>
      isa_ApplyInst I = true
      /\ Diag_Loc d = getSourceLoc (getLoc I)
  end.
Proof.
  intro Hd.
  destruct I as [L | L | L | L | L c a | L v | L b | L].
  5: { rewrite diagnosticsOf_ApplyInst in Hd.
       destruct (isStaticReportRef c && firstArgumentIsOne a);
         [| destruct Hd].
       destruct Hd as [<- | []]. now split. }
  all: split_origin F; split_location L;
    try match goal with R : SwiftType |- _ => destruct R end;
    cbn in Hd;
    repeat match goal with
           | H : _ \/ _ |- _ => destruct H
           | H : False |- _ => destruct H
           | H : _ = ?x |- _ => is_var x; subst x
           end;
    cbn; repeat split.
Qed.

Lemma diagnostic_kind_tells_instruction_witness :
  isa_BranchInst (ReturnInst (loc_of Node_ReturnStmt ReturnKind 13 21))
  || isa_ReturnInst (ReturnInst (loc_of Node_ReturnStmt ReturnKind 13 21)) = true
  /\ hasASTLocation (loc_of Node_ReturnStmt ReturnKind 13 21) = true
  /\ SourceLoc_at 13 = SourceLoc_at 13.
Proof.
  apply (@diagnostic_kind_tells_instruction g_noreturn
           (ReturnInst (loc_of Node_ReturnStmt ReturnKind 13 21))
           (mkDiagnostic (SourceLoc_at 13) diag.return_from_noreturn)).
  left. reflexivity.
Defined.

Lemma diagnosticsOf_kind_origin (F : SILFunction) (I : SILInstruction) (d : Diagnostic) :
  In d (diagnosticsOf F I) ->
  (isMissingReturn d = true -> isNoReturnFuncDecl F = false)
  /\ (isReturnFromNoReturn d = true -> isNoReturnFuncDecl F = true).
Proof.
  intro Hd.
  destruct I as [L | L | L | L | L c a | L v | L b | L].
  5: { rewrite diagnosticsOf_ApplyInst in Hd.
       destruct (isStaticReportRef c && firstArgumentIsOne a);
         [| destruct Hd].
       destruct Hd as [<- | []]. split; discriminate. }
  all: split_origin F; split_location L;
    try match goal with R : SwiftType |- _ => destruct R end;
    cbn in Hd;
    repeat match goal with
           | H : _ \/ _ |- _ => destruct H
           | H : False |- _ => destruct H
           | H : _ = ?x |- _ => is_var x; subst x
           end;
    split; intro; try reflexivity; discriminate.
Qed.

(** X6: one run never reports both a missing return and a return from a
    no-return function.  In a function that comes from a [FuncDecl] marked
    no-return it reports no missing return; in any other function it
    reports no return from a no-return function. *)
Theorem run_never_reports_both (M : SILModule) :
  let F := getFunction M in
  exists r ds,
    run M = (r, emitted M ds)
    /\ existsb isMissingReturn ds && isNoReturnFuncDecl F = false
    /\ existsb isReturnFromNoReturn ds && negb (isNoReturnFuncDecl F) = false
    /\ existsb isMissingReturn ds && existsb isReturnFromNoReturn ds = false.
Proof.
  intro F.
  destruct (for_each_visit_provenance F (instructions F))
    as (r & ds & Hrun & _ & Hprov).
  exists r, ds. split; [rewrite run_flat; apply Hrun |].
  assert (Hmiss : existsb isMissingReturn ds = true -> isNoReturnFuncDecl F = false).
  { intro H. apply existsb_exists in H. destruct H as (d & Hd & Hk).
    destruct (Hprov d Hd) as (I & _ & HdI).
    now apply (diagnosticsOf_kind_origin F I d HdI). }
  assert (Hret : existsb isReturnFromNoReturn ds = true -> isNoReturnFuncDecl F = true).
  { intro H. apply existsb_exists in H. destruct H as (d & Hd & Hk).
    destruct (Hprov d Hd) as (I & _ & HdI).
    now apply (diagnosticsOf_kind_origin F I d HdI). }
  destruct (existsb isMissingReturn ds), (existsb isReturnFromNoReturn ds),
    (isNoReturnFuncDecl F); simpl; repeat split;
    try reflexivity;
    try (specialize (Hmiss eq_refl); discriminate);
    try (specialize (Hret eq_refl); discriminate).
Qed.

Lemma visit_location (F F' : SILFunction) (I : SILInstruction) (M : SILModule) :
  getLocation F = getLocation F' -> visit F I M = visit F' I M.
Proof.
  destruct F as [loc bs], F' as [loc' bs']. simpl. intros <-. reflexivity.
Qed.

Lemma for_each_ext (S A : Type) (f g : A -> St S unit) (l : list A) (s : S) :
  (forall x s', f x s' = g x s') -> for_each l f s = for_each l g s.
Proof.
  intro Hfg. revert s. induction l as [| x rest IH]; intro s; simpl.
  - reflexivity.
  - unfold bind. rewrite Hfg. destruct (g x s) as [[[] | msg] s'].
    + apply IH.
    + reflexivity.
Qed.

(** X7: the diagnostics of a function are those of its blocks, one group
    after the other.  A run on the blocks [bs1 ++ bs2] is the run on [bs1]
    followed, when that one completes, by the run on [bs2] of the same
    function; when the run on [bs1] stops, so does the whole run, with the
    same message and the same diagnostics. *)
Theorem run_blocks_compose
  (loc : SILLocation) (bs1 bs2 : list SILBasicBlock) (C : ASTContext) :
  let F1 := mkSILFunction loc bs1 in
  let F2 := mkSILFunction loc bs2 in
  let F := mkSILFunction loc (bs1 ++ bs2) in
  run (mkSILModule F C)
  = match run (mkSILModule F1 C) with
    | (Ok _, M1) =>
        let (r, M2) := run (mkSILModule F2 (getASTContext M1)) in
        (r, mkSILModule F (getASTContext M2))
    | (Fatal msg, M1) => (Fatal msg, mkSILModule F (getASTContext M1))
    end.
Proof.
  intros F1 F2 F.
  destruct (uniform_for_each emitted_nil emitted_app (visit F1) (instructions F1)
              (uniform_visit F1)) as (r1 & ds1 & H1).
  destruct (uniform_for_each emitted_nil emitted_app (visit F2) (instructions F2)
              (uniform_visit F2)) as (r2 & ds2 & H2).
  assert (E1 : forall l M, for_each l (visit F) M = for_each l (visit F1) M)
    by (intros; apply for_each_ext; intros; now apply visit_location).
  assert (E2 : forall l M, for_each l (visit F) M = for_each l (visit F2) M)
    by (intros; apply for_each_ext; intros; now apply visit_location).
  rewrite !run_flat. simpl getFunction.
  replace (instructions F) with (instructions F1 ++ instructions F2)
    by (unfold instructions; simpl; now rewrite flat_map_app).
  rewrite for_each_app. unfold bind.
  rewrite E1, !H1.
  destruct r1 as [[] | msg]; [| reflexivity].
  rewrite run_flat. simpl getFunction.
  rewrite E2, !H2. unfold emitted. simpl. reflexivity.
Qed.

(** X8: an instruction that is neither an unreachable, a branch, a return
    nor a call is never diagnosed, whatever its location and the function
    are; this holds for the other terminators too.  A function that has
    only such instructions, or none, gets no diagnostic and its run
    completes. *)
Theorem uninspected_instructions_are_silent (M : SILModule) :
  let F := getFunction M in
  (forall I M', isInspected I = false -> visit F I M' = (Ok tt, M'))
  /\ (Forall (fun I => isInspected I = false) (instructions F) ->
      run M = (Ok tt, M)).
Proof.
  intro F.
  assert (Hvisit : forall I M', isInspected I = false -> visit F I M' = (Ok tt, M')).
  { intros I [F' [ds]] HI.
    destruct I as [L | L | L | L | L c a | L v | L b | L];
      try discriminate HI; reflexivity. }
  split; [exact Hvisit |].
  intro Hall. rewrite run_flat. fold F.
  induction Hall as [| I rest HI _ IH]; simpl.
  - reflexivity.
  - unfold bind. rewrite (Hvisit I M HI). exact IH.
Qed.

Lemma uninspected_instructions_are_silent_witness :
  run (fresh quiet_function) = (Ok tt, fresh quiet_function).
Proof.
  apply (proj2 (uninspected_instructions_are_silent (fresh quiet_function))).
  repeat constructor.
Defined.

(** ** The order of the visits *)

Lemma flat_map_instructions (A : Type) (f : SILInstruction -> list A)
  (bs : list SILBasicBlock) :
  flat_map f (flat_map Insts bs) = flat_map (fun BB => flat_map f (Insts BB)) bs.
Proof.
  induction bs as [| BB rest IH]; simpl.
  - reflexivity.
  - now rewrite flat_map_app, IH.
Qed.

(** A loop of visits, exactly: it ends as the first failure says and has
    emitted what the visited instructions emit, in their order. *)
Lemma for_each_visit_exact (F : SILFunction) (l : list SILInstruction)
  (M : SILModule) :
  for_each l (visit F) M
  = (firstFailure F l,
     emitted M (flat_map (diagnosticsOf F) (visitedPrefix F l))).
Proof.
  revert M. induction l as [| I rest IH]; intro M; simpl.
  - unfold ret. now rewrite emitted_nil.
  - unfold bind. rewrite visit_effect. unfold outcomeOf.
    destruct (failureOf F I) as [msg |]; simpl.
    + now rewrite app_nil_r.
    + rewrite IH. now rewrite emitted_app.
Qed.

Lemma visitedPrefix_is_prefix (F : SILFunction) (l : list SILInstruction) :
  exists post, l = visitedPrefix F l ++ post.
Proof.
  induction l as [| I rest [post IH]]; simpl.
  - now exists [].
  - destruct (failureOf F I).
    + now exists rest.
    + exists post. simpl. now rewrite <- IH.
Qed.

Lemma completes_failureOf (F : SILFunction) (I : SILInstruction) :
  completes F I <-> failureOf F I = None.
Proof.
  unfold completes. rewrite outcome_fresh. unfold outcomeOf.
  destruct (failureOf F I); split; intro H; try reflexivity; discriminate H.
Qed.

Lemma visitedPrefix_all (F : SILFunction) (l : list SILInstruction) :
  Forall (completes F) l -> firstFailure F l = Ok tt /\ visitedPrefix F l = l.
Proof.
  induction 1 as [| I rest HI _ [IH1 IH2]]; simpl.
  - now split.
  - apply completes_failureOf in HI. rewrite HI. split; [exact IH1 |].
    now rewrite IH2.
Qed.

Lemma visitedPrefix_stops (F : SILFunction) (l : list SILInstruction) (msg : string) :
  firstFailure F l = Fatal msg ->
  exists pre I,
    visitedPrefix F l = pre ++ [I]
    /\ failureOf F I = Some msg
    /\ Forall (completes F) pre.
Proof.
  induction l as [| J rest IH]; simpl; [discriminate |].
  destruct (failureOf F J) as [m |] eqn:EJ.
  - intro H. injection H as ->. exists [], J. now repeat split.
  - intro H. destruct (IH H) as (pre & I & Hpre & HI & Hall).
    exists (J :: pre), I. repeat split.
    + simpl. now rewrite Hpre.
    + exact HI.
    + constructor; [now apply completes_failureOf | exact Hall].
Qed.

(** C6, as the code has it: one run visits the instructions of the function
    block after block and, in a block, instruction after instruction, each
    one once, up to the first instruction whose visit stops, which is the
    last one visited; when no visit stops these are all the instructions of
    all the blocks.  What the run appends to the diagnostics is the
    concatenation, in that same order, of what the visit of each visited
    instruction emits, whichever of the three diagnosers emitted it; the
    instruction on which the run stops, and those after it, add nothing. *)
Theorem run_visits_in_order_until_failure (M : SILModule) :
  let F := getFunction M in
  let visited := visitedPrefix F (instructions F) in
  run M
  = (firstFailure F (instructions F),
     emitted M (flat_map (diagnosticsOf F) visited))
  /\ (exists post, instructions F = visited ++ post)
  /\ (Forall (completes F) (instructions F) ->
      visited = instructions F
      /\ run M
         = (Ok tt,
            emitted M
              (flat_map (fun BB => flat_map (diagnosticsOf F) (Insts BB))
                 (Blocks F))))
  /\ (forall msg, firstFailure F (instructions F) = Fatal msg ->
      exists pre I,
        visited = pre ++ [I]
        /\ failureOf F I = Some msg
        /\ Forall (completes F) pre
        /\ run M = (Fatal msg, emitted M (flat_map (diagnosticsOf F) pre))).
Proof.
  intros F visited.
  assert (Hrun : run M
                 = (firstFailure F (instructions F),
                    emitted M (flat_map (diagnosticsOf F) visited))).
  { rewrite run_flat. apply for_each_visit_exact. }
  split; [exact Hrun |].
  split; [apply visitedPrefix_is_prefix |].
  split.
  - intro Hall.
    destruct (visitedPrefix_all Hall) as [Hok Hvis].
    split; [exact Hvis |].
    rewrite Hrun, Hok. unfold visited. rewrite Hvis.
    unfold instructions. now rewrite flat_map_instructions.
  - intros msg Hmsg.
    destruct (visitedPrefix_stops F (instructions F) Hmsg)
      as (pre & I & Hpre & HI & Hall).
    exists pre, I. repeat split; try assumption.
    rewrite Hrun, Hmsg. unfold visited. rewrite Hpre, flat_map_app. simpl.
    now rewrite (failure_emits_nothing F I HI), !app_nil_r.
Qed.

Lemma run_visits_in_order_until_failure_witness :
  (visitedPrefix f_missing_return (instructions f_missing_return)
   = instructions f_missing_return
   /\ run (fresh f_missing_return)
      = (Ok tt,
         emitted (fresh f_missing_return)
           (flat_map
              (fun BB => flat_map (diagnosticsOf f_missing_return) (Insts BB))
              (Blocks f_missing_return))))
  /\ (exists pre I,
        visitedPrefix f_stops (instructions f_stops) = pre ++ [I]
        /\ failureOf f_stops I = Some "Invalid index!"%string
        /\ Forall (completes f_stops) pre
        /\ run (fresh f_stops)
           = (Fatal "Invalid index!",
              emitted (fresh f_stops) (flat_map (diagnosticsOf f_stops) pre))).
Proof.
  split.
  - apply (proj1 (proj2 (proj2
             (run_visits_in_order_until_failure (fresh f_missing_return))))).
    repeat constructor.
  - apply (proj2 (proj2 (proj2
             (run_visits_in_order_until_failure (fresh f_stops))))).
    reflexivity.
Defined.

(** C6 as it is stated fails: the run on [f_stops] stops on the second
    instruction, a static report without argument.  The branch after it and
    the unreachable of the second block are not visited, and the
    non-exhaustive-switch diagnostic that the visit of that unreachable
    emits is not appended. *)
Lemma run_completes_in_order_fails :
  run (fresh f_stops)
  = (Fatal "Invalid index!",
     emitted (fresh f_stops)
       [mkDiagnostic (SourceLoc_at 20) diag.static_report_error])
  /\ flat_map (fun BB => flat_map (diagnosticsOf f_stops) (Insts BB))
       (Blocks f_stops)
     = [mkDiagnostic (SourceLoc_at 20) diag.static_report_error;
        mkDiagnostic (SourceLoc_at 60) diag.non_exhaustive_switch]
  /\ ~ run_completes_in_order.
Proof.
  split; [reflexivity |]. split; [reflexivity |].
  intro H. specialize (H (fresh f_stops)).
  vm_compute in H. discriminate H.
Qed.

(** ** The compiler invocation and the compiler instance *)

Section FrontendProperties.

Variables LangOptions DiagnosticOptions SourceFileKind LibraryKind : Type.
Variables SourceManager DiagnosticEngine : Type.

Local Notation "'Invocation_'" :=
  (CompilerInvocation LangOptions DiagnosticOptions SourceFileKind LibraryKind)
  (only parsing).

Local Notation "'Instance_'" :=
  (CompilerInstance LangOptions DiagnosticOptions SourceFileKind LibraryKind
     SourceManager DiagnosticEngine)
  (only parsing).

Lemma with_Inputs_same (FO : FrontendOptions SourceFileKind) :
  with_Inputs FO (InputFilenames FO) (InputBuffers FO) = FO.
Proof. now destruct FO. Qed.

Lemma with_FrontendOpts_same (Inv : Invocation_) :
  with_FrontendOpts Inv (FrontendOpts Inv) = Inv.
Proof. now destruct Inv. Qed.

Lemma addInputFilenames_fold (names : list string) (Inv : Invocation_) :
  fold_left (fun i f => addInputFilename f i) names Inv
  = with_FrontendOpts Inv
      (with_Inputs (FrontendOpts Inv)
         (InputFilenames (FrontendOpts Inv) ++ names)
         (InputBuffers (FrontendOpts Inv))).
Proof.
  revert Inv. induction names as [| f rest IH]; intro Inv; simpl.
  - now rewrite app_nil_r, with_Inputs_same, with_FrontendOpts_same.
  - rewrite IH. destruct Inv as [? [] ? ? ? ? ? ? ? ? ?].
    unfold addInputFilename, with_FrontendOpts, with_Inputs. simpl.
    now rewrite <- app_assoc.
Qed.

Lemma addInputBuffers_fold (bufs : list Ptr) (Inv : Invocation_) :
  fold_left (fun i b => addInputBuffer b i) bufs Inv
  = with_FrontendOpts Inv
      (with_Inputs (FrontendOpts Inv)
         (InputFilenames (FrontendOpts Inv))
         (InputBuffers (FrontendOpts Inv) ++ bufs)).
Proof.
  revert Inv. induction bufs as [| b rest IH]; intro Inv; simpl.
  - now rewrite app_nil_r, with_Inputs_same, with_FrontendOpts_same.
  - rewrite IH. destruct Inv as [? [] ? ? ? ? ? ? ? ? ?].
    unfold addInputBuffer, with_FrontendOpts, with_Inputs. simpl.
    now rewrite <- app_assoc.
Qed.

(** X9: input file names and input buffers are kept in the order in which
    they were added, after those already there, in two lists that do not
    influence each other: adding a name and adding a buffer commute.
    Adding inputs changes nothing else in the invocation: every other
    option structure and every other front-end option is what it was, and
    putting the old two lists back gives the old invocation.  [clearInputs]
    empties both lists and changes nothing else, in the same sense. *)
Theorem inputs_accumulate_and_clear
  (Inv : Invocation_) (names : list string) (bufs : list Ptr) :
  let Inv' :=
    fold_left (fun i b => addInputBuffer b i) bufs
      (fold_left (fun i f => addInputFilename f i) names Inv) in
  let restore (I : Invocation_) :=
    with_FrontendOpts I
      (with_Inputs (FrontendOpts I) (getInputFilenames Inv) (getInputBuffers Inv)) in
  let others (I : Invocation_) :=
    (LangOpts I, ClangImporterOpts I, SearchPathOpts I, TargetOpts I,
     DiagnosticOpts I, IRGenOpts I, Immediate I, CodeCompletionBuffer I,
     CodeCompletionOffset I, CodeCompletionFactory I,
     (OutputFilename (FrontendOpts I), ModuleName (FrontendOpts I),
      SerializedDiagnosticsPath (FrontendOpts I), InputKind (FrontendOpts I),
      ParseStdlib (FrontendOpts I), ParseOnly (FrontendOpts I),
      DelayedFunctionBodyParsing (FrontendOpts I))) in
  getInputFilenames Inv' = getInputFilenames Inv ++ names
  /\ getInputBuffers Inv' = getInputBuffers Inv ++ bufs
  /\ others Inv' = others Inv
  /\ restore Inv' = Inv
  /\ clearInputs Inv' = clearInputs Inv
  /\ getInputFilenames (clearInputs Inv) = []
  /\ getInputBuffers (clearInputs Inv) = []
  /\ others (clearInputs Inv) = others Inv
  /\ restore (clearInputs Inv) = Inv
  /\ (forall f b,
        addInputBuffer b (addInputFilename f Inv)
        = addInputFilename f (addInputBuffer b Inv)).
Proof.
  intros Inv' restore others. subst Inv' restore others.
  rewrite addInputBuffers_fold, addInputFilenames_fold.
  destruct Inv as [? [] ? ? ? ? ? ? ? ? ?].
  repeat split.
Qed.

(** X10: [setCodeCompletionPoint] with a buffer records the buffer and the
    offset, as a 32-bit unsigned number, and leaves the rest of the
    invocation as it was; afterwards [isCodeCompletion] holds unless the
    offset is [~0U] = 4294967295, the value that stands for no code
    completion.  With a null buffer it fails its assertion and changes
    nothing. *)
Theorem code_completion_point (Inv : Invocation_) (Buf : Ptr) (Offset : Z) :
  match Buf with
  | Some _ =>
      exists Inv',
        setCodeCompletionPoint Buf Offset Inv = (Ok tt, Inv')
        /\ getCodeCompletionPoint Inv' = (Buf, (Offset mod 4294967296)%Z)
        /\ (isCodeCompletion Inv' = true
            <-> (Offset mod 4294967296 <> 4294967295)%Z)
        /\ with_CodeCompletionPoint Inv'
             (CodeCompletionBuffer Inv) (CodeCompletionOffset Inv) = Inv
  | None => setCodeCompletionPoint Buf Offset Inv = (Fatal "Buf", Inv)
  end.
Proof.
  destruct Buf as [b |]; [| reflexivity].
  eexists. split; [reflexivity |]. split; [reflexivity |]. split.
  - unfold isCodeCompletion. simpl.
    change not_0U with 4294967295%Z.
    change (to_unsigned Offset) with (Offset mod 4294967296)%Z.
    rewrite negb_true_iff. apply Z.eqb_neq.
  - now destruct Inv.
Qed.

(** X11: the instance owns at most one SIL module.  After [setSILModule M]
    the instance has [M] and [hasSILModule] tells whether [M] is a module
    or null; [takeSILModule] hands the module over and leaves the instance
    without one, so that a second take gives null, and giving the module
    back restores the instance; a module set before is dropped.  Setting
    and taking change nothing else in the instance: every other member is
    what it was. *)
Theorem sil_module_ownership (CI : Instance_) (M M0 : option SILModule) :
  let others (I : Instance_) :=
    (Invocation I, SourceMgr I, Diagnostics I, Context I, MainModule I, SML I,
     BufferIDs I, MainBufferID I, PrimaryBufferID I, PrimarySourceFile I) in
  getSILModule (setSILModule M CI) = M
  /\ hasSILModule (setSILModule M CI)
     = match M with Some _ => true | None => false end
  /\ takeSILModule (setSILModule M CI)
     = (M, setSILModule None CI)
  /\ hasSILModule (snd (takeSILModule CI)) = false
  /\ takeSILModule (snd (takeSILModule CI)) = (None, snd (takeSILModule CI))
  /\ setSILModule M (setSILModule M0 CI) = setSILModule M CI
  /\ Invocation (snd (takeSILModule (setSILModule M CI))) = Invocation CI
  /\ others (setSILModule M CI) = others CI
  /\ others (snd (takeSILModule CI)) = others CI
  /\ setSILModule (getSILModule CI) (setSILModule M CI) = CI
  /\ setSILModule (fst (takeSILModule CI)) (snd (takeSILModule CI)) = CI.
Proof.
  intro others. subst others.
  destruct CI as [Inv SM DE Ctx TheM Main Loader Bufs MainID PrimaryID Primary].
  repeat split.
Qed.

(** X12: link libraries are kept in the order in which they were added,
    after those already there, and adding them changes nothing else in the
    invocation; an instance gives the link libraries of its invocation. *)
Theorem link_libraries_in_order
  (CI : Instance_) (libs : list (LinkLibrary LibraryKind)) :
  let Inv := Invocation CI in
  let Inv' :=
    fold_left
      (fun i l => addLinkLibrary (LinkLibrary_name l) (LinkLibrary_kind l) i)
      libs Inv in
  getLinkLibraries Inv' = getLinkLibraries Inv ++ libs
  /\ with_IRGenOpts Inv' (IRGenOpts Inv) = Inv
  /\ CompilerInstance_getLinkLibraries CI = getLinkLibraries Inv.
Proof.
  intros Inv Inv'. subst Inv'.
  assert (H : forall I : Invocation_,
             fold_left
               (fun i l =>
                  addLinkLibrary (LinkLibrary_name l) (LinkLibrary_kind l) i)
               libs I
             = with_IRGenOpts I
                 (mkIRGenOptions (LinkLibraries (IRGenOpts I) ++ libs))).
  { induction libs as [| [n k] rest IH]; intro I; simpl.
    - rewrite app_nil_r. now destruct I as [? ? ? ? ? ? [] ? ? ? ?].
    - rewrite IH. unfold addLinkLibrary, with_IRGenOpts. simpl.
      now rewrite <- app_assoc. }
  assert (Hback : forall (I : Invocation_) IO,
             with_IRGenOpts (with_IRGenOpts I IO) (IRGenOpts I) = I)
    by (now intros [] ?).
  rewrite H. split; [reflexivity |]. split; [apply Hback | reflexivity].
Qed.

End FrontendProperties.

Example code_completion_at_not_0U :
  setCodeCompletionPoint (Some 7%N) (-1) test_invocation
  = (Ok tt, with_CodeCompletionPoint test_invocation (Some 7%N) 4294967295)
  /\ isCodeCompletion
       (with_CodeCompletionPoint test_invocation (Some 7%N) 4294967295) = false
  /\ isCodeCompletion
       (snd (setCodeCompletionPoint (Some 7%N) 4294967296 test_invocation)) = true.
Proof. repeat split. Qed.

Example take_the_module_once :
  let CI := setSILModule (Some (fresh g_noreturn)) test_instance in
  fst (takeSILModule CI) = Some (fresh g_noreturn)
  /\ fst (takeSILModule (snd (takeSILModule CI))) = None.
Proof. repeat split. Qed.

Example inputs_in_order :
  getInputFilenames
    (addInputFilename "b.swift" (addInputBuffer None
       (addInputFilename "a.swift" test_invocation)))
  = ["main.swift"; "a.swift"; "b.swift"]%string.
Proof. reflexivity. Qed.
